(** * The session layer of the ElectrumX server

    A shallow embedding of [electrumx/server/session.py]: the session
    manager ([SessionManager]), the client session ([ElectrumX]) with its
    subscription sets, the status hash of a script hash, the LRU caches and
    their coherence with chain reorganisations, and the admission loop.

    Conventions.
    - Python [int] is [Z]; a cost (a Python float) is an exact rational [Q],
      so the decimal literals of the source are read as the fractions they
      denote; [bytes] is [list byte]; [str] is [string]; a [dict] is a
      [gmap], a [set] a [gset]; [None]-or-object is [option].
    - A coroutine is a state transformer.  At an [await] on a collaborator
      (the database, the listeners) other tasks of the event loop run: the
      model passes what they do to the manager, together with the
      collaborator's answer, as an [Await] record.
    - An exception is a value of [exn]; a call yields a [result]. *)

From Stdlib Require Import ZArith QArith String Ascii List Lia DecimalString Bool.
From Stdlib.Strings Require Import Byte.
From stdpp Require Import base gmap sets list strings.

Open Scope string_scope.
Open Scope Z_scope.

(** ** Python values *)

Abbreviation bytes := (list byte).

#[global] Instance byte_eq_dec : EqDecision byte := Byte.byte_eq_dec.
#[global] Instance byte_countable : Countable byte :=
  inj_countable Byte.to_N Byte.of_N Byte.of_to_N.

(** [x is not None] *)
Definition is_not_None {A} (o : option A) : bool :=
  match o with Some _ => true | None => false end.

(** [dict.pop(k, None)]: the value removed, or [None]; the key is gone. *)
Definition dict_pop `{Countable K} {V} (k : K) (d : gmap K V) : option V * gmap K V :=
  (d !! k, delete k d).

(** [set.discard(x)]: removes [x] if present.  The call itself evaluates to
    [None] whatever the set held, hence the empty type of objects. *)
Definition set_discard `{Countable K} (x : K) (s : gset K) : option Empty_set * gset K :=
  (None, s ∖ {[x]}).

(** [f'{n:d}'] and [str(n)] for an int. *)
Definition format_d (n : Z) : string := NilZero.string_of_int (Z.to_int n).

(** [-b] for a bool [b]: [-True] is [-1], [-False] is [0]. *)
Definition neg_bool (b : bool) : Z := if b then -1 else 0.

(** [str.encode()] of an ASCII string. *)
Definition str_encode (s : string) : bytes := list_byte_of_string s.

(** [''.join(parts)] *)
Definition str_join (parts : list string) : string := fold_right String.append "" parts.

(** [bytes.hex()]: two lowercase hexadecimal digits per byte. *)
Definition hex_digit (n : N) : ascii :=
  if (n <? 10)%N then ascii_of_N (48 + n) else ascii_of_N (87 + n).

Fixpoint hex (b : bytes) : string :=
  match b with
  | [] => ""
  | x :: b' =>
      let n := Byte.to_N x in
      String (hex_digit (n / 16)) (String (hex_digit (n mod 16)) (hex b'))
  end.

(** [bytes.fromhex(s)]: ASCII whitespace is skipped before each byte, the
    two digits of a byte are adjacent; anything else is a [ValueError]
    ([None]). *)
Definition is_space (c : ascii) : bool :=
  let n := N_of_ascii c in
  ((n =? 32) || (n =? 9) || (n =? 10) || (n =? 11) || (n =? 12) || (n =? 13))%N.

Definition hex_value (c : ascii) : option N :=
  let n := N_of_ascii c in
  if ((48 <=? n) && (n <=? 57))%N then Some (n - 48)%N
  else if ((97 <=? n) && (n <=? 102))%N then Some (n - 87)%N
  else if ((65 <=? n) && (n <=? 70))%N then Some (n - 55)%N
  else None.

Fixpoint fromhex (s : string) : option bytes :=
  match s with
  | "" => Some []
  | String c s' =>
      if is_space c then fromhex s'
      else
        match s' with
        | "" => None
        | String d s'' =>
            match hex_value c, hex_value d with
            | Some hi, Some lo =>
                match Byte.of_N (16 * hi + lo), fromhex s'' with
                | Some x, Some rest => Some (x :: rest)
                | _, _ => None
                end
            | _, _ => None
            end
        end
  end.

(** ** Exceptions and results *)

Definition BAD_REQUEST : Z := 1.
Definition DAEMON_ERROR : Z := 2.

(** [aiorpcx.RPCError(code, message, cost=...)] *)
Record RPCError := mkRPCError { code : Z; message : string; error_cost : Q }.

Inductive exn :=
| Raise_RPCError (e : RPCError)
| Raise_ReplyAndDisconnect (e : RPCError)
| Raise_DBError (repr : string)
| Raise_ValueError.

Inductive result (A : Type) :=
| Return (a : A)
| Raise (e : exn).
Arguments Return {A} a.
Arguments Raise {A} e.

(** ** pylru.lrucache

    A bounded mapping that forgets its least recently used key.  The items
    are kept most recently used first. *)
Module pylru.
Section lrucache.
Context {K V : Type} `{EqDecision K}.

Record lrucache := mk { cache_size : nat; items : list (K * V) }.

Definition new (n : nat) : lrucache := mk n [].

Fixpoint assoc (k : K) (l : list (K * V)) : option V :=
match l with
| [] => None
| (k', v) :: l' => if decide (k = k') then Some v else assoc k l'
end.

Fixpoint remove (k : K) (l : list (K * V)) : list (K * V) :=
match l with
| [] => []
| (k', v) :: l' => if decide (k = k') then remove k l' else (k', v) :: remove k l'
end.

(** [key in cache] *)
Definition contains (k : K) (c : lrucache) : bool := is_not_None (assoc k (items c)).

(** [cache[key]]: [None] is [KeyError]; a found key becomes the most
  recently used. *)
Definition getitem (k : K) (c : lrucache) : option (V * lrucache) :=
match assoc k (items c) with
| Some v => Some (v, mk (cache_size c) ((k, v) :: remove k (items c)))
| None => None
end.

(** [cache.get(key)]: [None] when absent, else as [cache[key]]. *)
Definition get (k : K) (c : lrucache) : option V * lrucache :=
match getitem k c with
| Some (v, c') => (Some v, c')
| None => (None, c)
end.

(** [cache[key] = value]: a present key is overwritten; a new key takes
  the free node, or the node of the least recently used key. *)
Definition setitem (k : K) (v : V) (c : lrucache) : lrucache :=
match assoc k (items c) with
| Some _ => mk (cache_size c) ((k, v) :: remove k (items c))
| None => mk (cache_size c) ((k, v) :: take (Nat.pred (cache_size c)) (items c))
end.


(** [cache.clear()] *)
Definition clear (c : lrucache) : lrucache := mk (cache_size c) [].

Definition len (c : lrucache) : nat := length (items c).

End lrucache.
Arguments lrucache : clear implicits.
End pylru.

(** ** A state and exception monad for coroutine bodies *)

Definition M (S A : Type) : Type := S → result A * S.

#[global] Instance M_ret {S} : MRet (M S) := λ A a s, (Return a, s).
#[global] Instance M_bind {S} : MBind (M S) := λ A B f c s,
  match c s with
  | (Return a, s') => f a s'
  | (Raise e, s') => (Raise e, s')
  end.

Definition raise {S A} (e : exn) : M S A := λ s, (Raise e, s).
Definition gets {S A} (f : S → A) : M S A := λ s, (Return (f s), s).
Definition modify {S} (f : S → S) : M S unit := λ s, (Return tt, f s).

(** [try: body  except RPCError: handler]: other exceptions propagate. *)
Definition try_except_RPCError {S A} (body : M S A) (handler : M S A) : M S A := λ s,
  match body s with
  | (Raise (Raise_RPCError _), s') => handler s'
  | r => r
  end.

(** What happens while a coroutine is suspended in an [await]: the other
    tasks of the loop change the shared state, then the answer arrives. *)
Record Await (S A : Type) := mkAwait { others : S → S; answer : A }.
Arguments mkAwait {S A} others answer.
Arguments others {S A} a s.
Arguments answer {S A} a.

(** ** Data model *)

Abbreviation hashX := (list byte) (only parsing).
Abbreviation History := (list (bytes * Z)).

(** Sessions and groups are objects shared between the manager's tables;
    the tables hold references to them. *)
Abbreviation session_ref := nat (only parsing).
Abbreviation group_ref := nat (only parsing).

Record Service := mkService { protocol : string; host : string; port : Z }.
#[global] Instance Service_eq_dec : EqDecision Service.
Proof. solve_decision. Defined.

(** The part of [env] the session layer reads.  [max_send] is the value
    after [SessionManager.__init__] has raised it to at least 350000;
    [drop_client] stands for [env.drop_client.match]. *)
Record Env := mkEnv {
  max_send : Z;
  max_sessions : Z;
  services : list Service;
  drop_client : option (string → bool);
}.

(** [mempool.MemPoolTxSummary] *)
Record MemPoolTxSummary := mkTxSummary {
  tx_hash : bytes;
  fee : Z;
  has_unconfirmed_inputs : bool;
}.

(** The per-height accelerator of [electrumx.lib.merkle]; the session
    layer only stores it, so it is kept as the hash list it was built from. *)
Definition MerkleCache : Type := list bytes.

Module SessionGroup.
Record t := mk {
  name : string;
  weight : Q;
  sessions : gset session_ref;
  retained_cost : Q;
}.

(** [sum(session.cost for session in self.sessions)]; [cost_of] reads the
    [cost] attribute of a session object. *)
Definition session_cost (cost_of : session_ref → Q) (g : t) : Q :=
  fold_left (λ acc session, acc + cost_of session)%Q (elements (sessions g)) 0%Q.

Definition cost (cost_of : session_ref → Q) (g : t) : Q :=
  (retained_cost g + session_cost cost_of g)%Q.
End SessionGroup.

(** The objects the manager's tables refer to: the [cost] attribute of each
    session and the record of each group. *)
Record Heap := mkHeap {
  session_cost : session_ref → Q;
  group_at : group_ref → SessionGroup.t;
}.

Module SessionManager.
Import pylru.

Record t := mk {
  servers : list Service;
  sessions : gmap session_ref (list group_ref);
  session_groups : gmap string group_ref;
  txs_sent : Z;
  start_time : Q;
  _method_counts : gmap string Z;
  _reorg_count : Z;
  _history_cache : lrucache hashX (RPCError + History);
  _history_lookups : Z;
  _history_hits : Z;
  _tx_hashes_cache : lrucache Z (list bytes);
  _tx_hashes_lookups : Z;
  _tx_hashes_hits : Z;
  _merkle_cache : lrucache Z MerkleCache;
  _merkle_lookups : Z;
  _merkle_hits : Z;
  estimatefee_cache : lrucache (Z * option string) (option bytes * option Q);
  notified_height : option Z;
  hsub_results : option (string * Z);
}.

(** Attribute assignments. *)
Definition set_servers v m :=
  mk v (sessions m) (session_groups m) (txs_sent m) (start_time m) (_method_counts m)
     (_reorg_count m) (_history_cache m) (_history_lookups m) (_history_hits m)
     (_tx_hashes_cache m) (_tx_hashes_lookups m) (_tx_hashes_hits m)
     (_merkle_cache m) (_merkle_lookups m) (_merkle_hits m)
     (estimatefee_cache m) (notified_height m) (hsub_results m).
Definition set_reorg_count v m :=
  mk (servers m) (sessions m) (session_groups m) (txs_sent m) (start_time m) (_method_counts m)
     v (_history_cache m) (_history_lookups m) (_history_hits m)
     (_tx_hashes_cache m) (_tx_hashes_lookups m) (_tx_hashes_hits m)
     (_merkle_cache m) (_merkle_lookups m) (_merkle_hits m)
     (estimatefee_cache m) (notified_height m) (hsub_results m).
Definition set_history_cache v m :=
  mk (servers m) (sessions m) (session_groups m) (txs_sent m) (start_time m) (_method_counts m)
     (_reorg_count m) v (_history_lookups m) (_history_hits m)
     (_tx_hashes_cache m) (_tx_hashes_lookups m) (_tx_hashes_hits m)
     (_merkle_cache m) (_merkle_lookups m) (_merkle_hits m)
     (estimatefee_cache m) (notified_height m) (hsub_results m).
Definition set_history_lookups v m :=
  mk (servers m) (sessions m) (session_groups m) (txs_sent m) (start_time m) (_method_counts m)
     (_reorg_count m) (_history_cache m) v (_history_hits m)
     (_tx_hashes_cache m) (_tx_hashes_lookups m) (_tx_hashes_hits m)
     (_merkle_cache m) (_merkle_lookups m) (_merkle_hits m)
     (estimatefee_cache m) (notified_height m) (hsub_results m).
Definition set_history_hits v m :=
  mk (servers m) (sessions m) (session_groups m) (txs_sent m) (start_time m) (_method_counts m)
     (_reorg_count m) (_history_cache m) (_history_lookups m) v
     (_tx_hashes_cache m) (_tx_hashes_lookups m) (_tx_hashes_hits m)
     (_merkle_cache m) (_merkle_lookups m) (_merkle_hits m)
     (estimatefee_cache m) (notified_height m) (hsub_results m).
Definition set_tx_hashes_cache v m :=
  mk (servers m) (sessions m) (session_groups m) (txs_sent m) (start_time m) (_method_counts m)
     (_reorg_count m) (_history_cache m) (_history_lookups m) (_history_hits m)
     v (_tx_hashes_lookups m) (_tx_hashes_hits m)
     (_merkle_cache m) (_merkle_lookups m) (_merkle_hits m)
     (estimatefee_cache m) (notified_height m) (hsub_results m).
Definition set_tx_hashes_lookups v m :=
  mk (servers m) (sessions m) (session_groups m) (txs_sent m) (start_time m) (_method_counts m)
     (_reorg_count m) (_history_cache m) (_history_lookups m) (_history_hits m)
     (_tx_hashes_cache m) v (_tx_hashes_hits m)
     (_merkle_cache m) (_merkle_lookups m) (_merkle_hits m)
     (estimatefee_cache m) (notified_height m) (hsub_results m).
Definition set_tx_hashes_hits v m :=
  mk (servers m) (sessions m) (session_groups m) (txs_sent m) (start_time m) (_method_counts m)
     (_reorg_count m) (_history_cache m) (_history_lookups m) (_history_hits m)
     (_tx_hashes_cache m) (_tx_hashes_lookups m) v
     (_merkle_cache m) (_merkle_lookups m) (_merkle_hits m)
     (estimatefee_cache m) (notified_height m) (hsub_results m).
Definition set_merkle_cache v m :=
  mk (servers m) (sessions m) (session_groups m) (txs_sent m) (start_time m) (_method_counts m)
     (_reorg_count m) (_history_cache m) (_history_lookups m) (_history_hits m)
     (_tx_hashes_cache m) (_tx_hashes_lookups m) (_tx_hashes_hits m)
     v (_merkle_lookups m) (_merkle_hits m)
     (estimatefee_cache m) (notified_height m) (hsub_results m).
Definition set_sessions v m :=
  mk (servers m) v (session_groups m) (txs_sent m) (start_time m) (_method_counts m)
     (_reorg_count m) (_history_cache m) (_history_lookups m) (_history_hits m)
     (_tx_hashes_cache m) (_tx_hashes_lookups m) (_tx_hashes_hits m)
     (_merkle_cache m) (_merkle_lookups m) (_merkle_hits m)
     (estimatefee_cache m) (notified_height m) (hsub_results m).

(** *** Listeners *)

Definition is_rpc (service : Service) : bool := String.eqb (protocol service) "rpc".

(** What the listeners answer while [_manage_servers] is suspended:
    [woken] is what other tasks did to the manager before
    [session_event] woke the loop, [during_stop] and [during_start] what
    they did while listeners were closing or opening, and [serve_ok]
    tells for which services [serve] succeeds (no [OSError]). *)
Record ListenerAwaits := mkListenerAwaits {
  woken : t → t;
  during_stop : t → t;
  during_start : t → t;
  serve_ok : Service → bool;
}.

Definition _start_servers (io : ListenerAwaits) (services : list Service) (m : t) : t :=
  let m := match services with [] => m | _ => during_start io m end in
  fold_left
    (λ m service,
       if serve_ok io service
       then if decide (service ∈ servers m) then m
            else set_servers (servers m ++ [service]) m
       else m)
    services m.

Definition _start_external_servers (env : Env) (io : ListenerAwaits) (m : t) : t :=
  _start_servers io (filter (λ service, negb (is_rpc service)) (services env)) m.

Definition _stop_servers (io : ListenerAwaits) (services : list Service) (m : t) : t :=
  let server_map := filter (λ service, bool_decide (service ∈ services)) (servers m) in
  let m := set_servers
             (filter (λ service, negb (bool_decide (service ∈ server_map))) (servers m)) m in
  match server_map with [] => m | _ => during_stop io m end.

(** One turn of the [while True] loop of [_manage_servers]; [paused] is
    the loop's local variable. *)
Definition _manage_servers_iteration (env : Env) (io : ListenerAwaits)
    (st : bool * t) : bool * t :=
  let '(paused, m) := st in
  let max_sessions := max_sessions env in
  let low_watermark := max_sessions * 19 / 20 in
  let m := woken io m in
  let '(paused, m) :=
    if negb paused && (Z.of_nat (size (sessions m)) >=? max_sessions)%Z
    then (true, _stop_servers io (filter (λ service, negb (is_rpc service)) (servers m)) m)
    else (paused, m) in
  if paused && (Z.of_nat (size (sessions m)) <=? low_watermark)%Z
  then (false, _start_external_servers env io m)
  else (paused, m).

(** The loop, for as many wake-ups as the list holds; it starts with
    [paused = False]. *)
Definition _manage_servers (env : Env) (wakes : list ListenerAwaits) (m : t) : bool * t :=
  fold_left (λ st io, _manage_servers_iteration env io st) wakes (false, m).

(** *** Reorganisations *)

(** The body of the loop of [_handle_chain_reorgs], run each time
    [bp.backed_up_event] fires. *)
Definition _handle_chain_reorgs_iteration (m : t) : t :=
  let m := set_reorg_count (_reorg_count m + 1) m in
  let m := set_tx_hashes_cache (clear (_tx_hashes_cache m)) m in
  set_merkle_cache (clear (_merkle_cache m)) m.

Definition _handle_chain_reorgs (signals : list (Await t unit)) (m : t) : t :=
  fold_left (λ m aw, _handle_chain_reorgs_iteration (others aw m)) signals m.

(** *** Group cost *)

Definition extra_cost (h : Heap) (m : t) (session : session_ref) : Q :=
  match sessions m !! session with
  | None => 0%Q
  | Some groups =>
      fold_left
        (λ acc group,
           acc + (SessionGroup.cost (session_cost h) (group_at h group)
                  - session_cost h session) * SessionGroup.weight (group_at h group))%Q
        groups 0%Q
  end.

(** *** Transaction hashes of a block *)

(** The [while True] loop: one element of [awaits] per call of
    [db.tx_hashes_at_blockheight], whose answer is the hashes or a
    [DBError].  [None] when the loop is still running after the last of
    them. *)
Fixpoint fetch_fresh (awaits : list (Await t (string + list bytes))) (m : t)
    : option (result (list bytes) * t) :=
  match awaits with
  | [] => None
  | aw :: awaits' =>
      let reorg_count := _reorg_count m in
      let m := others aw m in
      match answer aw with
      | inl e =>
          Some (Raise (Raise_RPCError (mkRPCError BAD_REQUEST ("db error: " ++ e) 0%Q)), m)
      | inr tx_hashes =>
          if (reorg_count =? _reorg_count m)%Z then Some (Return tx_hashes, m)
          else fetch_fresh awaits' m
      end
  end.

Definition tx_hashes_at_blockheight (height : Z)
    (awaits : list (Await t (string + list bytes))) (m : t)
    : option (result (list bytes * Q) * t) :=
  let m := set_tx_hashes_lookups (_tx_hashes_lookups m + 1) m in
  let '(tx_hashes, cache) := get height (_tx_hashes_cache m) in
  let m := set_tx_hashes_cache cache m in
  match tx_hashes with
  | Some (tx_hash :: rest) =>
      let m := set_tx_hashes_hits (_tx_hashes_hits m + 1) m in
      Some (Return (tx_hash :: rest, 0.1%Q), m)
  | _ =>
      match fetch_fresh awaits m with
      | None => None
      | Some (Raise e, m) => Some (Raise e, m)
      | Some (Return tx_hashes, m) =>
          let m := set_tx_hashes_cache (setitem height tx_hashes (_tx_hashes_cache m)) m in
          Some (Return (tx_hashes,
                        (0.25 + inject_Z (Z.of_nat (length tx_hashes)) * 0.0001)%Q), m)
      end
  end.

(** *** History of a script hash *)

(** [raise result] if the cached value is an exception, else return it. *)
Definition raise_or_return (result : RPCError + History) (cost : Q)
    : M t (History * Q) :=
  match result with
  | inl e => raise (Raise_RPCError e)
  | inr history => mret (history, cost)
  end.

Definition limited_history (env : Env) (hashX : hashX)
    (aw : Await t (string + History)) : M t (History * Q) := λ m,
  let limit := max_send env / 99 in
  let cost := 0.1%Q in
  let m := set_history_lookups (_history_lookups m + 1) m in
  match getitem hashX (_history_cache m) with
  | Some (result, cache) =>
      let m := set_history_cache cache m in
      let m := set_history_hits (_history_hits m + 1) m in
      raise_or_return result cost m
  | None =>
      let m := others aw m in
      match answer aw with
      | inl e => (Raise (Raise_DBError e), m)
      | inr history =>
          let cost := (cost + (0.1 + inject_Z (Z.of_nat (length history)) * 0.001))%Q in
          let result :=
            if (Z.of_nat (length history) >=? limit)%Z
            then inl (mkRPCError BAD_REQUEST "history too large" cost)
            else inr history in
          let m := set_history_cache (setitem hashX result (_history_cache m)) m in
          raise_or_return result cost m
      end
  end.

End SessionManager.

(** ** Helpers of [electrumx.lib] and [electrumx.version]

    [session.py] imports these from [electrumx/lib/hash.py] and
    [electrumx/lib/util.py]; the session code is stated for any of them.
    [hex_str_to_hash] gives [None] where the helper raises [ValueError]. *)

(** A protocol version such as [(1, 4)]: a Python tuple of ints. *)
Abbreviation ptuple := (list Z) (only parsing).

(** A request parameter: a JSON string, or any other JSON value (of which
    only [repr] is kept). *)
Inductive param :=
| P_str (s : string)
| P_other (repr : string).

(** The [protocol_version] argument of [server.version]: what the client
    sent (for messages) and the range of versions it stands for. *)
Record ClientReq := mkClientReq {
  req_repr : string;
  client_min : ptuple;
  client_max : ptuple;
}.

Record Lib := mkLib {
  sha256 : bytes → bytes;
  hash_to_hex_str : bytes → string;
  hex_str_to_hash : string → option bytes;
  HASHX_LEN : nat;
  util_protocol_version : ClientReq → ptuple → ptuple → option ptuple * ptuple;
  util_version_string : ptuple → string;
  electrumx_version : string;
}.

(** ** The client session *)
Module ElectrumX.

Definition PROTOCOL_MIN : ptuple := [1; 4].
Definition PROTOCOL_MAX : ptuple := [1; 11].
Definition PROTOCOL_BAD : list ptuple := [[1; 9]].

Record t := mk {
  cost : Q;
  client : string;
  subscribe_headers : bool;
  hashX_subs : gmap hashX string;
  asset_subs : gset string;
  qualifier_tag_subs : gset string;
  h160_tag_subs : gset bytes;
  broadcast_subs : gset string;
  frozen_subs : gset string;
  validator_subs : gset string;
  qualifier_validator_subs : gset string;
  sv_seen : bool;
  mempool_statuses : gmap hashX (option string);
  is_peer : bool;
  protocol_tuple : ptuple;
  request_handlers : gmap string string;
}.

(** Attribute assignments. *)
Definition set_cost v s :=
  mk v (client s) (subscribe_headers s) (hashX_subs s) (asset_subs s) (qualifier_tag_subs s)
     (h160_tag_subs s) (broadcast_subs s) (frozen_subs s) (validator_subs s)
     (qualifier_validator_subs s) (sv_seen s) (mempool_statuses s) (is_peer s)
     (protocol_tuple s) (request_handlers s).
Definition set_client v s :=
  mk (cost s) v (subscribe_headers s) (hashX_subs s) (asset_subs s) (qualifier_tag_subs s)
     (h160_tag_subs s) (broadcast_subs s) (frozen_subs s) (validator_subs s)
     (qualifier_validator_subs s) (sv_seen s) (mempool_statuses s) (is_peer s)
     (protocol_tuple s) (request_handlers s).
Definition set_hashX_subs v s :=
  mk (cost s) (client s) (subscribe_headers s) v (asset_subs s) (qualifier_tag_subs s)
     (h160_tag_subs s) (broadcast_subs s) (frozen_subs s) (validator_subs s)
     (qualifier_validator_subs s) (sv_seen s) (mempool_statuses s) (is_peer s)
     (protocol_tuple s) (request_handlers s).
Definition set_asset_subs v s :=
  mk (cost s) (client s) (subscribe_headers s) (hashX_subs s) v (qualifier_tag_subs s)
     (h160_tag_subs s) (broadcast_subs s) (frozen_subs s) (validator_subs s)
     (qualifier_validator_subs s) (sv_seen s) (mempool_statuses s) (is_peer s)
     (protocol_tuple s) (request_handlers s).
Definition set_qualifier_tag_subs v s :=
  mk (cost s) (client s) (subscribe_headers s) (hashX_subs s) (asset_subs s) v
     (h160_tag_subs s) (broadcast_subs s) (frozen_subs s) (validator_subs s)
     (qualifier_validator_subs s) (sv_seen s) (mempool_statuses s) (is_peer s)
     (protocol_tuple s) (request_handlers s).
Definition set_h160_tag_subs v s :=
  mk (cost s) (client s) (subscribe_headers s) (hashX_subs s) (asset_subs s) (qualifier_tag_subs s)
     v (broadcast_subs s) (frozen_subs s) (validator_subs s)
     (qualifier_validator_subs s) (sv_seen s) (mempool_statuses s) (is_peer s)
     (protocol_tuple s) (request_handlers s).
Definition set_broadcast_subs v s :=
  mk (cost s) (client s) (subscribe_headers s) (hashX_subs s) (asset_subs s) (qualifier_tag_subs s)
     (h160_tag_subs s) v (frozen_subs s) (validator_subs s)
     (qualifier_validator_subs s) (sv_seen s) (mempool_statuses s) (is_peer s)
     (protocol_tuple s) (request_handlers s).
Definition set_frozen_subs v s :=
  mk (cost s) (client s) (subscribe_headers s) (hashX_subs s) (asset_subs s) (qualifier_tag_subs s)
     (h160_tag_subs s) (broadcast_subs s) v (validator_subs s)
     (qualifier_validator_subs s) (sv_seen s) (mempool_statuses s) (is_peer s)
     (protocol_tuple s) (request_handlers s).
Definition set_validator_subs v s :=
  mk (cost s) (client s) (subscribe_headers s) (hashX_subs s) (asset_subs s) (qualifier_tag_subs s)
     (h160_tag_subs s) (broadcast_subs s) (frozen_subs s) v
     (qualifier_validator_subs s) (sv_seen s) (mempool_statuses s) (is_peer s)
     (protocol_tuple s) (request_handlers s).
Definition set_qualifier_validator_subs v s :=
  mk (cost s) (client s) (subscribe_headers s) (hashX_subs s) (asset_subs s) (qualifier_tag_subs s)
     (h160_tag_subs s) (broadcast_subs s) (frozen_subs s) (validator_subs s)
     v (sv_seen s) (mempool_statuses s) (is_peer s)
     (protocol_tuple s) (request_handlers s).
Definition set_sv_seen v s :=
  mk (cost s) (client s) (subscribe_headers s) (hashX_subs s) (asset_subs s) (qualifier_tag_subs s)
     (h160_tag_subs s) (broadcast_subs s) (frozen_subs s) (validator_subs s)
     (qualifier_validator_subs s) v (mempool_statuses s) (is_peer s)
     (protocol_tuple s) (request_handlers s).
Definition set_mempool_statuses v s :=
  mk (cost s) (client s) (subscribe_headers s) (hashX_subs s) (asset_subs s) (qualifier_tag_subs s)
     (h160_tag_subs s) (broadcast_subs s) (frozen_subs s) (validator_subs s)
     (qualifier_validator_subs s) (sv_seen s) v (is_peer s)
     (protocol_tuple s) (request_handlers s).
Definition set_protocol_tuple v s :=
  mk (cost s) (client s) (subscribe_headers s) (hashX_subs s) (asset_subs s) (qualifier_tag_subs s)
     (h160_tag_subs s) (broadcast_subs s) (frozen_subs s) (validator_subs s)
     (qualifier_validator_subs s) (sv_seen s) (mempool_statuses s) (is_peer s)
     v (request_handlers s).
Definition set_request_handlers_attr v s :=
  mk (cost s) (client s) (subscribe_headers s) (hashX_subs s) (asset_subs s) (qualifier_tag_subs s)
     (h160_tag_subs s) (broadcast_subs s) (frozen_subs s) (validator_subs s)
     (qualifier_validator_subs s) (sv_seen s) (mempool_statuses s) (is_peer s)
     (protocol_tuple s) v.

(** The handler table of [set_request_handlers]: method name and the
    name of the bound method that serves it. *)
Definition handlers : list (string * string) :=
  [
    ("blockchain.block.header", "block_header");
    ("blockchain.block.headers", "block_headers");
    ("blockchain.estimatefee", "estimatefee");
    ("blockchain.headers.subscribe", "headers_subscribe");
    ("blockchain.relayfee", "relayfee");
    ("blockchain.scripthash.get_balance", "scripthash_get_balance");
    ("blockchain.scripthash.get_history", "scripthash_get_history");
    ("blockchain.scripthash.get_mempool", "scripthash_get_mempool");
    ("blockchain.scripthash.listunspent", "scripthash_listunspent");
    ("blockchain.scripthash.subscribe", "scripthash_subscribe");
    ("blockchain.transaction.broadcast", "transaction_broadcast");
    ("blockchain.transaction.get", "transaction_get");
    ("blockchain.transaction.get_merkle", "transaction_merkle");
    ("blockchain.transaction.get_tsc_merkle", "transaction_tsc_merkle");
    ("blockchain.transaction.id_from_pos", "transaction_id_from_pos");
    ("mempool.get_fee_histogram", "compact_fee_histogram");
    ("server.add_peer", "add_peer");
    ("server.banner", "banner");
    ("server.donation_address", "donation_address");
    ("server.features", "server_features_async");
    ("server.peers.subscribe", "peers_subscribe");
    ("server.ping", "ping");
    ("server.version", "server_version");
    ("blockchain.scripthash.unsubscribe", "scripthash_unsubscribe");
    ("blockchain.asset.subscribe", "asset_subscribe");
    ("blockchain.asset.unsubscribe", "asset_unsubscribe");
    ("blockchain.asset.check_tag", "is_qualified");
    ("blockchain.asset.all_tags", "qualifications_for_h160");
    ("blockchain.asset.is_frozen", "is_restricted_frozen");
    ("blockchain.asset.validator_string", "get_restricted_string");
    ("blockchain.asset.restricted_associations", "lookup_qualifier_associations");
    ("blockchain.asset.broadcasts", "get_messages");
    ("blockchain.asset.get_assets_with_prefix", "get_assets_with_prefix");
    ("blockchain.asset.list_addresses_by_asset", "list_addresses_by_asset");
    ("blockchain.asset.get_meta", "asset_get_meta");
    ("blockchain.asset.verifier_string", "get_restricted_string");
    ("blockchain.tag.check", "is_qualified");
    ("blockchain.tag.qualifier.list", "qualifications_for_qualifier");
    ("blockchain.tag.h160.list", "qualifications_for_h160");
    ("blockchain.tag.qualifier.subscribe", "subscribe_qualifier_tagging");
    ("blockchain.tag.qualifier.unsubscribe", "unsubscribe_qualifier_tagging");
    ("blockchain.tag.h160.subscribe", "subscribe_h160_tagged");
    ("blockchain.tag.h160.unsubscribe", "unsubscribe_h160_tagged");
    ("blockchain.asset.broadcasts.subscribe", "subscribe_broadcast");
    ("blockchain.asset.broadcasts.unsubscribe", "unsubscribe_broadcast");
    ("blockchain.asset.is_frozen.subscribe", "subscribe_asset_freeze");
    ("blockchain.asset.is_frozen.unsubscribe", "unsubscribe_asset_freeze");
    ("blockchain.asset.verifier_string.subscribe", "subscribe_restricted_verification_change");
    ("blockchain.asset.verifier_string.unsubscribe", "unsubscribe_restricted_verification_change");
    ("blockchain.asset.restricted_associations.subscribe", "subscribe_qualifier_associated_restricted");
    ("blockchain.asset.restricted_associations.unsubscribe", "unsubscribe_qualifier_associated_restricted");
    ("blockchain.asset.get_meta_history", "asset_get_meta_history");
    ("blockchain.asset.verifier_string_history", "get_restricted_string_history");
    ("blockchain.tag.qualifier.history", "qualifications_for_qualifier_history");
    ("blockchain.tag.h160.history", "qualifications_for_h160_history");
    ("blockchain.asset.frozen_history", "restricted_frozen_history");
    ("blockchain.asset.restricted_associations_history", "lookup_qualifier_associations_history");
    ("topic.update", "handle_topic_update")
  ].

Definition set_request_handlers (ptuple : ptuple) : M t unit :=
  modify (set_protocol_tuple ptuple);;
  modify (set_request_handlers_attr (list_to_map handlers)).

(** The state after [__init__]. *)
Definition init : t :=
  snd (set_request_handlers PROTOCOL_MIN
         (mk 5.0%Q "unknown" false ∅ ∅ ∅ ∅ ∅ ∅ ∅ ∅ false ∅ false [] ∅)).

(** [RPCSession.bump_cost] of aiorpcx: the cost never drops below zero.
    The recalculation of the session's concurrency that a large bump
    triggers changes no attribute modelled here. *)
Definition bump_cost (delta : Q) : M t unit :=
  modify (λ s, let c := (cost s + delta)%Q in
               set_cost (if Qle_bool c 0 then 0%Q else c) s).


(** A session together with the manager it belongs to. *)
Record State := mkState { self : t; session_mgr : SessionManager.t }.

Definition on_self {A} (c : M t A) : M State A := λ st,
  let '(r, s) := c (self st) in (r, mkState s (session_mgr st)).
Definition on_session_mgr {A} (c : M SessionManager.t A) : M State A := λ st,
  let '(r, m) := c (session_mgr st) in (r, mkState (self st) m).

Definition rpc_error {S A} (message : string) : M S A :=
  raise (Raise_RPCError (mkRPCError BAD_REQUEST message 0%Q)).

(** *** Parameter checks *)

Definition scripthash_to_hashX (lib : Lib) (scripthash : param) : M t hashX :=
  let invalid repr := rpc_error (repr ++ " is not a valid script hash") in
  match scripthash with
  | P_other repr => invalid repr
  | P_str s =>
      match hex_str_to_hash lib s with
      | Some bin_hash =>
          if decide (length bin_hash = 32%nat) then mret (take (HASHX_LEN lib) bin_hash)
          else invalid s
      | None => invalid s
      end
  end.

(** [check_asset] returns nothing in the source; here it hands back the
    string it has checked. *)
Definition check_asset (name : param) : M t string :=
  match name with
  | P_other repr => rpc_error ("the asset name must be a string (" ++ repr ++ ")")
  | P_str name =>
      if (Z.of_nat (String.length name) <=? 0)%Z then rpc_error "asset name is empty!"
      else if (Z.of_nat (String.length name) >? 32)%Z
           then rpc_error "asset name greater than 32 characters"
           else mret name
  end.

Definition check_h160 (h160 : param) : M t string :=
  match h160 with
  | P_other _ => rpc_error "the h160 must be a string"
  | P_str h160 =>
      if decide (String.length h160 ≠ 40%nat) then rpc_error "h160 not 20 bytes"
      else mret h160
  end.

(** [asset[0] != '#'] *)
Definition first_is_not_hash (asset : string) : bool :=
  match asset with
  | String c _ => negb (Ascii.eqb c "#")
  | EmptyString => true
  end.

(** *** Unsubscribing *)

Definition unsubscribe_hashX (hashX : hashX) : M t (option string) := λ s,
  let '(_, statuses) := dict_pop hashX (mempool_statuses s) in
  let s := set_mempool_statuses statuses s in
  let '(alias, subs) := dict_pop hashX (hashX_subs s) in
  (Return alias, set_hashX_subs subs s).

Definition scripthash_unsubscribe (lib : Lib) (scripthash : param) : M t bool :=
  bump_cost 0.1;;
  hashX ← scripthash_to_hashX lib scripthash;
  alias ← unsubscribe_hashX hashX;
  mret (is_not_None alias).

(** [subs.discard(key) is not None] on one of the subscription sets. *)
Definition discard_is_not_None `{Countable K} (subs : t → gset K) (set_subs : gset K → t → t)
    (key : K) : M t bool := λ s,
  let '(r, subs') := set_discard key (subs s) in
  (Return (is_not_None r), set_subs subs' s).

Definition asset_unsubscribe (asset : param) : M t bool :=
  asset ← check_asset asset;
  discard_is_not_None asset_subs set_asset_subs asset.

Definition unsubscribe_qualifier_tagging (qualifier : param) : M t bool :=
  qualifier ← check_asset qualifier;
  discard_is_not_None qualifier_tag_subs set_qualifier_tag_subs qualifier.

Definition unsubscribe_h160_tagged (h160 : param) : M t bool :=
  h160 ← check_h160 h160;
  match fromhex h160 with
  | None => raise Raise_ValueError
  | Some h160_b => discard_is_not_None h160_tag_subs set_h160_tag_subs h160_b
  end.

Definition unsubscribe_broadcast (asset : param) : M t bool :=
  asset ← check_asset asset;
  discard_is_not_None broadcast_subs set_broadcast_subs asset.

Definition unsubscribe_asset_freeze (asset : param) : M t bool :=
  asset ← check_asset asset;
  discard_is_not_None frozen_subs set_frozen_subs asset.

Definition unsubscribe_restricted_verification_change (asset : param) : M t bool :=
  asset ← check_asset asset;
  discard_is_not_None validator_subs set_validator_subs asset.

Definition unsubscribe_qualifier_associated_restricted (asset : param) : M t bool :=
  asset ← check_asset asset;
  if first_is_not_hash asset then rpc_error (asset ++ " is not a qualifier")
  else discard_is_not_None qualifier_validator_subs set_qualifier_validator_subs asset.

(** *** Status of a script hash *)

(** The string that is hashed: the confirmed history in the order the
    database gives it, then the mempool transactions in the order the
    mempool gives them. *)
Definition status_string (lib : Lib) (db_history : History)
    (mempool : list MemPoolTxSummary) : string :=
  let status :=
    str_join (map (λ '(tx_hash, height),
                     hash_to_hex_str lib tx_hash ++ ":" ++ format_d height ++ ":")
                  db_history) in
  status ++
  str_join (map (λ tx,
                   hash_to_hex_str lib (tx_hash tx) ++ ":"
                   ++ format_d (neg_bool (has_unconfirmed_inputs tx)) ++ ":")
                mempool).

Definition address_status (lib : Lib) (env : Env) (hashX : hashX)
    (aw : Await SessionManager.t (string + History))
    (mempool : list MemPoolTxSummary) : M State (option string) :=
  '(db_history, cost) ← on_session_mgr (SessionManager.limited_history env hashX aw);
  let status := status_string lib db_history mempool in
  on_self (bump_cost (cost + 0.1
                      + inject_Z (Z.of_nat (String.length status)) * 0.00002)%Q);;
  let status :=
    match status with
    | EmptyString => None
    | _ => Some (hex (sha256 lib (str_encode status)))
    end in
  on_self (modify (λ s,
    match mempool with
    | _ :: _ => set_mempool_statuses (<[hashX := status]> (mempool_statuses s)) s
    | [] => set_mempool_statuses (snd (dict_pop hashX (mempool_statuses s))) s
    end));;
  mret status.

Definition subscription_address_status (lib : Lib) (env : Env) (hashX : hashX)
    (aw : Await SessionManager.t (string + History))
    (mempool : list MemPoolTxSummary) : M State (option string) :=
  try_except_RPCError
    (address_status lib env hashX aw mempool)
    (on_self (unsubscribe_hashX hashX);; mret None).

Definition hashX_subscribe (lib : Lib) (env : Env) (hashX : hashX) (alias : string)
    (aw : Await SessionManager.t (string + History))
    (mempool : list MemPoolTxSummary) : M State (option string) :=
  result ← address_status lib env hashX aw mempool;
  on_self (modify (λ s, set_hashX_subs (<[hashX := alias]> (hashX_subs s)) s));;
  mret result.

(** *** Protocol negotiation *)

Definition unsupported_protocol {A} (protocol_version : ClientReq) : M t A :=
  raise (Raise_ReplyAndDisconnect
           (mkRPCError BAD_REQUEST
              ("unsupported protocol version: " ++ req_repr protocol_version) 0%Q)).

Definition server_version (lib : Lib) (env : Env) (client_name : string)
    (protocol_version : ClientReq) : M t (string * string) :=
  bump_cost 0.5;;
  seen ← gets sv_seen;
  if seen : bool then rpc_error "server.version already sent" else
  modify (set_sv_seen true);;
  (match client_name with
   | EmptyString => mret tt
   | _ =>
       match drop_client env with
       | Some drop_client_match =>
           if drop_client_match client_name : bool
           then raise (Raise_ReplyAndDisconnect
                         (mkRPCError BAD_REQUEST ("unsupported client: " ++ client_name) 0%Q))
           else modify (set_client (substring 0 17 client_name))
       | None => modify (set_client (substring 0 17 client_name))
       end
   end);;
  let '(ptuple, client_min) :=
    util_protocol_version lib protocol_version PROTOCOL_MIN PROTOCOL_MAX in
  if bool_decide (ptuple ∈ (Some <$> PROTOCOL_BAD)) then unsupported_protocol protocol_version
  else
    match ptuple with
    | None => unsupported_protocol protocol_version
    | Some ptuple =>
        set_request_handlers ptuple;;
        mret (electrumx_version lib, util_version_string lib ptuple)
    end.

End ElectrumX.

(** ** A model of the helpers *)

(** Modelled from the spec: [electrumx.lib.hash.sha256] is not part of
    [session.py]; the spec names it SHA-256, which is the function of
    FIPS 180-4 written out here on 32-bit words held in [Z]. *)
Module SHA256.

Definition w32 (x : Z) : Z := Z.land x 0xffffffff.
Definition add32 (x y : Z) : Z := w32 (x + y).
Definition rotr (n x : Z) : Z := Z.lor (Z.shiftr x n) (w32 (Z.shiftl x (32 - n))).
Definition not32 (x : Z) : Z := Z.lxor x 0xffffffff.

Definition Ch (x y z : Z) : Z := Z.lxor (Z.land x y) (Z.land (not32 x) z).
Definition Maj (x y z : Z) : Z :=
  Z.lxor (Z.lxor (Z.land x y) (Z.land x z)) (Z.land y z).
Definition Sigma0 (x : Z) : Z := Z.lxor (Z.lxor (rotr 2 x) (rotr 13 x)) (rotr 22 x).
Definition Sigma1 (x : Z) : Z := Z.lxor (Z.lxor (rotr 6 x) (rotr 11 x)) (rotr 25 x).
Definition sigma0 (x : Z) : Z := Z.lxor (Z.lxor (rotr 7 x) (rotr 18 x)) (Z.shiftr x 3).
Definition sigma1 (x : Z) : Z := Z.lxor (Z.lxor (rotr 17 x) (rotr 19 x)) (Z.shiftr x 10).

(** The constants are derived as the standard defines them, from the
    first primes: [trial_division p] tells whether [p] has no divisor
    between 2 and its square root. *)
Definition trial_division (p : Z) : bool :=
  forallb (λ d, negb (p mod d =? 0)) (map Z.of_nat (seq 2 (Z.to_nat (Z.sqrt p) - 1))).

Definition first_primes (n : nat) : list Z :=
  take n (List.filter trial_division (map Z.of_nat (seq 2 400))).

(** The integer cube root, found one bit at a time from bit [bits - 1]. *)
Fixpoint cube_root (bits : nat) (r x : Z) : Z :=
  match bits with
  | O => r
  | S bits' =>
      let r' := r + 2 ^ Z.of_nat bits' in
      cube_root bits' (if r' * r' * r' <=? x then r' else r) x
  end.

(** The first 32 bits of the fractional part of the cube root of each of
    the first 64 primes. *)
Definition K : list Z :=
  Eval vm_compute in map (λ p, w32 (cube_root 36 0 (p * 2 ^ 96))) (first_primes 64).

(** The first 32 bits of the fractional part of the square root of each of
    the first 8 primes. *)
Definition H0 : list Z :=
  Eval vm_compute in map (λ p, w32 (Z.sqrt (p * 2 ^ 64))) (first_primes 8).

(** Big-endian bytes of a number, and back. *)
Fixpoint be_bytes (n : nat) (x : Z) : list Z :=
  match n with
  | O => []
  | S n' => Z.land (Z.shiftr x (8 * Z.of_nat n')) 0xff :: be_bytes n' x
  end.

Definition be_word (b : list Z) : Z := fold_left (λ acc x, acc * 256 + x) b 0.

(** The message followed by the bit 1, zeros up to 56 modulo 64 bytes,
    and the length in bits on 8 bytes. *)
Definition pad (msg : list Z) : list Z :=
  let len := Z.of_nat (length msg) in
  let zeros := Z.to_nat ((55 - len) mod 64) in
  msg ++ [0x80] ++ repeat 0 zeros ++ be_bytes 8 (8 * len).

(** Split into chunks of [n] elements; the fuel is the list's length. *)
Fixpoint chunks {A} (fuel n : nat) (l : list A) : list (list A) :=
  match fuel, l with
  | O, _ | _, [] => []
  | S fuel', _ => take n l :: chunks fuel' n (drop n l)
  end.

(** The message schedule: [w] holds W(t-1) ... W(t-16), newest first. *)
Fixpoint schedule (n : nat) (w : list Z) : list Z :=
  match n with
  | O => w
  | S n' =>
      let x := add32 (add32 (sigma1 (nth 1 w 0)) (nth 6 w 0))
                     (add32 (sigma0 (nth 14 w 0)) (nth 15 w 0)) in
      schedule n' (x :: w)
  end.

Definition round (st : list Z) (kw : Z * Z) : list Z :=
  match st with
  | [a; b; c; d; e; f; g; h] =>
      let t1 := add32 (add32 (add32 h (Sigma1 e)) (add32 (Ch e f g) (fst kw))) (snd kw) in
      let t2 := add32 (Sigma0 a) (Maj a b c) in
      [add32 t1 t2; a; b; c; add32 d t1; e; f; g]
  | _ => st
  end.

Definition compress (h : list Z) (block : list Z) : list Z :=
  let w16 := map be_word (chunks 16 4 block) in
  let w := rev (schedule 48 (rev w16)) in
  let st := fold_left round (combine K w) h in
  map (λ p, add32 (fst p) (snd p)) (combine h st).

Definition digest (msg : list Z) : list Z :=
  let padded := pad msg in
  let h := fold_left compress (chunks (length padded) 64 padded) H0 in
  concat (map (be_bytes 4) h).

Definition byte_of_Z (x : Z) : byte :=
  match Byte.of_N (Z.to_N x) with Some b => b | None => x00 end.

Definition sha256 (msg : bytes) : bytes :=
  map byte_of_Z (digest (map (λ b, Z.of_N (Byte.to_N b)) msg)).

End SHA256.

(** Modelled from the spec: [electrumx.lib.util.protocol_version] is not
    part of [session.py].  The spec has it compute the highest protocol
    tuple common to the client's range and to the server's, or none when
    the two do not overlap; tuples compare as Python tuples do. *)
Module util.

Fixpoint tuple_compare (a b : ptuple) : comparison :=
  match a, b with
  | [], [] => Eq
  | [], _ :: _ => Lt
  | _ :: _, [] => Gt
  | x :: a', y :: b' =>
      match x ?= y with
      | Eq => tuple_compare a' b'
      | c => c
      end
  end.

Definition tuple_le (a b : ptuple) : bool :=
  match tuple_compare a b with Gt => false | _ => true end.
Definition tuple_lt (a b : ptuple) : bool :=
  match tuple_compare a b with Lt => true | _ => false end.

(** [min(a, b)] and [max(a, b)] *)
Definition tuple_min (a b : ptuple) : ptuple := if tuple_lt b a then b else a.
Definition tuple_max (a b : ptuple) : ptuple := if tuple_lt a b then b else a.

Definition protocol_version (client_req : ClientReq) (min_tuple max_tuple : ptuple)
    : option ptuple * ptuple :=
  let result := tuple_min (client_max client_req) max_tuple in
  (if tuple_lt result (tuple_max (client_min client_req) min_tuple) then None
   else Some result,
   client_min client_req).

(** [(1, 4)] is written ["1.4"]. *)
Fixpoint version_string (p : ptuple) : string :=
  match p with
  | [] => ""
  | [x] => format_d x
  | x :: p' => format_d x ++ "." ++ version_string p'
  end.

End util.

(** Modelled from the spec: the helpers of [electrumx.lib] as the spec
    words them: SHA-256, [hex(txhash)] for a transaction hash, a hashX of
    11 bytes. *)
Definition model_lib : Lib :=
  mkLib SHA256.sha256 hex fromhex 11 util.protocol_version util.version_string "ElectrumX".

(** ** The specification's wording *)

(** The status of a script hash as the specification words it: for each
    confirmed [(txhash, height)] the text [hex(txhash):height:], then for
    each mempool transaction [hex(txhash):-has_unconfirmed_inputs:]; the
    lowercase hexadecimal SHA-256 of that text, or null when there is
    neither history nor mempool transaction. *)
Fixpoint spec_confirmed_text (lib : Lib) (history : History) : string :=
  match history with
  | [] => ""
  | (txhash, height) :: history' =>
      (hash_to_hex_str lib txhash ++ ":" ++ format_d height ++ ":")
      ++ spec_confirmed_text lib history'
  end.

Fixpoint spec_mempool_text (lib : Lib) (mempool : list MemPoolTxSummary) : string :=
  match mempool with
  | [] => ""
  | tx :: mempool' =>
      (hash_to_hex_str lib (tx_hash tx) ++ ":"
       ++ format_d (neg_bool (has_unconfirmed_inputs tx)) ++ ":")
      ++ spec_mempool_text lib mempool'
  end.

Definition spec_status (lib : Lib) (history : History) (mempool : list MemPoolTxSummary)
    : option string :=
  match history, mempool with
  | [], [] => None
  | _, _ =>
      Some (hex (sha256 lib (str_encode (spec_confirmed_text lib history
                                         ++ spec_mempool_text lib mempool))))
  end.

(** The sum of a list of costs. *)
Fixpoint Qsum (l : list Q) : Q :=
  match l with
  | [] => 0%Q
  | x :: l' => (x + Qsum l')%Q
  end.

(** [g.cost()] and [extra_cost] as the specification words them. *)
Definition spec_group_cost (h : Heap) (g : SessionGroup.t) : Q :=
  (SessionGroup.retained_cost g
   + Qsum (map (session_cost h) (elements (SessionGroup.sessions g))))%Q.

Definition spec_extra_cost (h : Heap) (session : session_ref) (groups : list group_ref) : Q :=
  Qsum (map (λ g, (spec_group_cost h (group_at h g) - session_cost h session)
                  * SessionGroup.weight (group_at h g))%Q
            groups).

(** The fetch of the transaction hashes of a block as the specification
    words it: snapshot the reorg count, fetch, keep the answer only if the
    count is unchanged at completion, else discard it and fetch again. *)
Inductive fresh_fetch :
    list (Await SessionManager.t (string + list bytes)) → SessionManager.t →
    list bytes → SessionManager.t → Prop :=
| fresh_stable aw awaits m tx_hashes :
    answer aw = inr tx_hashes →
    SessionManager._reorg_count (others aw m) = SessionManager._reorg_count m →
    fresh_fetch (aw :: awaits) m tx_hashes (others aw m)
| fresh_retry aw awaits m discarded tx_hashes m' :
    answer aw = inr discarded →
    SessionManager._reorg_count (others aw m) ≠ SessionManager._reorg_count m →
    fresh_fetch awaits (others aw m) tx_hashes m' →
    fresh_fetch (aw :: awaits) m tx_hashes m'.

(** The highest protocol tuple common to the client's range and to
    [[PROTOCOL_MIN, PROTOCOL_MAX]]. *)
Definition in_range (lo hi p : ptuple) : Prop :=
  util.tuple_le lo p = true ∧ util.tuple_le p hi = true.

Definition common (client_req : ClientReq) (p : ptuple) : Prop :=
  in_range (client_min client_req) (client_max client_req) p
  ∧ in_range ElectrumX.PROTOCOL_MIN ElectrumX.PROTOCOL_MAX p.

Definition highest_common (client_req : ClientReq) (p : ptuple) : Prop :=
  common client_req p ∧ ∀ q, common client_req q → util.tuple_le q p = true.

(** ** Definitions used by the statements

    States reached in the middle of an operation, the outcomes named by
    the statements, and the concrete sessions, managers and schedules of
    the scenarios. *)

(** The names [check_asset] accepts. *)
Definition valid_asset_name (name : string) : Prop :=
  (0 < String.length name ≤ 32)%nat.

(** The status of a text: [None] when it is empty, else the hexadecimal
    digest of its bytes. *)
Definition status_of_text (lib : Lib) (text : string) : option string :=
  match text with
  | EmptyString => None
  | _ => Some (hex (sha256 lib (str_encode text)))
  end.

(** The session once the status is known: the cost is bumped and
    [mempool_statuses] is written. *)
Definition after_status (lib : Lib) (hashX : hashX) (cost : Q) (text : string)
    (mempool : list MemPoolTxSummary) (s : ElectrumX.t) : ElectrumX.t :=
  let s := snd (ElectrumX.bump_cost
                  (cost + 0.1 + inject_Z (Z.of_nat (String.length text)) * 0.00002)%Q s) in
  match mempool with
  | _ :: _ =>
      ElectrumX.set_mempool_statuses
        (<[hashX := status_of_text lib text]> (ElectrumX.mempool_statuses s)) s
  | [] => ElectrumX.set_mempool_statuses (delete hashX (ElectrumX.mempool_statuses s)) s
  end.

(** A manager with empty tables and caches of 1000 entries, as
    [SessionManager.__init__] builds it. *)
Definition new_manager : SessionManager.t :=
  SessionManager.mk [] ∅ ∅ 0 0%Q ∅ 0
    (pylru.new 1000) 0 0 (pylru.new 1000) 0 0 (pylru.new 1000) 0 0
    (pylru.new 1000) None None.

Definition tcp_service : Service := mkService "tcp" "all_interfaces" 50001.
Definition rpc_service : Service := mkService "rpc" "localhost" 8000.

Definition default_env : Env := mkEnv 350000 1000 [rpc_service; tcp_service] None.

(** The postcondition of a completed status computation. *)
Definition tracks_mempool (hashX : hashX) (mempool : list MemPoolTxSummary)
    (status : option string) (before after : ElectrumX.t) : Prop :=
  (hashX ∈ dom (ElectrumX.mempool_statuses after) ↔ mempool ≠ [])
  ∧ (mempool ≠ [] → ElectrumX.mempool_statuses after !! hashX = Some status)
  ∧ ∀ k, k ≠ hashX →
      ElectrumX.mempool_statuses after !! k = ElectrumX.mempool_statuses before !! k.

(** A fresh session and manager, a script hash and an unconfirmed
    transaction that spends unconfirmed outputs. *)
Definition fresh_state : ElectrumX.State := ElectrumX.mkState ElectrumX.init new_manager.
Definition hashX_22 : bytes := repeat x22 11.
Definition unconfirmed_tx : MemPoolTxSummary := mkTxSummary (repeat x33 32) 1000 true.
Definition no_history : Await SessionManager.t (string + History) := mkAwait id (inr []).

(** The error saved for a history of 3535 entries, and a session
    subscribed to a script hash for which the manager has saved it. *)
Definition too_large : RPCError := mkRPCError BAD_REQUEST "history too large" 3.735%Q.

Definition oversized_state : ElectrumX.State :=
  ElectrumX.mkState
    (ElectrumX.set_mempool_statuses {[hashX_22 := Some "stale"]}
       (ElectrumX.set_hashX_subs {[hashX_22 := "alias"]} ElectrumX.init))
    (SessionManager.set_history_cache
       (pylru.setitem hashX_22 (inl too_large) (pylru.new 1000)) new_manager).

(** Calling [limited_history] for the same hashX once per element of
    [aws], nothing else running in between: the results in order. *)
Fixpoint limited_history_calls (env : Env) (hashX : hashX)
    (aws : list (Await SessionManager.t (string + History))) (m : SessionManager.t)
    : list (result (History * Q)) :=
  match aws with
  | [] => []
  | aw :: aws' =>
      let r := SessionManager.limited_history env hashX aw m in
      fst r :: limited_history_calls env hashX aws' (snd r)
  end.

(** A history of 3535 entries is too large for [max_send = 350000]. *)
Definition long_history : Await SessionManager.t (string + History) :=
  mkAwait id (inr (repeat (repeat x44 32, 7) 3535)).

(** The manager once the call has counted the lookup and consulted the
    cache. *)
Definition after_lookup (height : Z) (m : SessionManager.t) : SessionManager.t :=
  let m := SessionManager.set_tx_hashes_lookups (SessionManager._tx_hashes_lookups m + 1) m in
  SessionManager.set_tx_hashes_cache (snd (pylru.get height (SessionManager._tx_hashes_cache m))) m.

(** The call counts a cache hit when the cache holds a non-empty list
    for the height. *)
Definition tx_hashes_hit (height : Z) (m : SessionManager.t) : Prop :=
  ∃ tx_hash rest,
    pylru.assoc height (pylru.items (SessionManager._tx_hashes_cache m))
    = Some (tx_hash :: rest).

Definition install (height : Z) (tx_hashes : list bytes) (m : SessionManager.t)
    : SessionManager.t :=
  SessionManager.set_tx_hashes_cache
    (pylru.setitem height tx_hashes (SessionManager._tx_hashes_cache m)) m.

(** Two answers of the database for a block, and a schedule in which the
    reorg handler runs during the first fetch and nothing runs during the
    second. *)
Definition stale_hashes : list bytes := [repeat x55 32].
Definition fresh_hashes : list bytes := [repeat x66 32].

Definition reorg_then_quiet : list (Await SessionManager.t (string + list bytes)) :=
  [mkAwait SessionManager._handle_chain_reorgs_iteration (inr stale_hashes);
   mkAwait id (inr fresh_hashes)].

(** [max_sessions * 19 // 20], [len(self.sessions)], and the closing of
    the listeners that are not RPC listeners. *)
Definition low_watermark (env : Env) : Z := max_sessions env * 19 / 20.

Definition session_count (m : SessionManager.t) : Z :=
  Z.of_nat (size (SessionManager.sessions m)).

Definition stop_external (io : SessionManager.ListenerAwaits) (m : SessionManager.t)
    : SessionManager.t :=
  SessionManager._stop_servers io
    (filter (λ service, negb (SessionManager.is_rpc service)) (SessionManager.servers m)) m.

(** The scenario of the specification: at most 10 sessions, one TCP
    listener and the RPC listener, and the session table the loop finds at
    each wake-up. *)
Definition env_10 : Env := mkEnv 350000 10 [rpc_service; tcp_service] None.

Definition listening : SessionManager.t :=
  SessionManager.set_servers [rpc_service; tcp_service] new_manager.

Definition with_sessions (n : nat) (m : SessionManager.t) : SessionManager.t :=
  SessionManager.set_sessions (list_to_map (map (λ i, (i, [])) (seq 0 n))) m.

Definition wake_with (n : nat) : SessionManager.ListenerAwaits :=
  SessionManager.mkListenerAwaits (with_sessions n) id id (λ _, true).

Definition external_open (st : bool * SessionManager.t) : bool :=
  bool_decide (tcp_service ∈ SessionManager.servers (snd st)).

(** The scenario as the specification tells it: listeners closed after
    the 10th session, still closed when the count is 9, open again when it
    is 8. *)
Definition admission_scenario_as_specified : Prop :=
  external_open (SessionManager._manage_servers env_10 [wake_with 10] listening) = false
  ∧ external_open (SessionManager._manage_servers env_10 [wake_with 10; wake_with 9] listening)
    = false
  ∧ external_open
      (SessionManager._manage_servers env_10 [wake_with 10; wake_with 9; wake_with 8] listening)
    = true.

(** Two sessions of cost 5 and 7; session 1 is in a time-slice group
    shared with session 2 and alone in its address group. *)
Definition two_sessions : Heap :=
  mkHeap (λ s, match s with 1%nat => 5.0%Q | 2%nat => 7.0%Q | _ => 0%Q end)
         (λ g, match g with
               | 0%nat => SessionGroup.mk "t0" 0.03%Q {[1%nat; 2%nat]} 1.0%Q
               | _ => SessionGroup.mk "192.0.2" 1.0%Q {[1%nat]} 0%Q
               end).

Definition two_sessions_manager : SessionManager.t :=
  SessionManager.set_sessions {[1%nat := [0%nat; 1%nat]; 2%nat := [0%nat]]} new_manager.

(** The client name is non-empty and matches [env.drop_client]. *)
Definition dropped (env : Env) (client_name : string) : bool :=
  match client_name, drop_client env with
  | EmptyString, _ => false
  | _, Some drop_client_match => drop_client_match client_name
  | _, None => false
  end.

Definition already_sent : exn :=
  Raise_RPCError (mkRPCError BAD_REQUEST "server.version already sent" 0%Q).

Definition unsupported_client (client_name : string) : exn :=
  Raise_ReplyAndDisconnect
    (mkRPCError BAD_REQUEST ("unsupported client: " ++ client_name) 0%Q).

Definition unsupported_version (client_req : ClientReq) : exn :=
  Raise_ReplyAndDisconnect
    (mkRPCError BAD_REQUEST ("unsupported protocol version: " ++ req_repr client_req) 0%Q).

(** The session once the call has been charged and marked. *)
Definition marked (s : ElectrumX.t) : ElectrumX.t :=
  ElectrumX.set_sv_seen true (snd (ElectrumX.bump_cost 0.5%Q s)).

Definition named (client_name : string) (s : ElectrumX.t) : ElectrumX.t :=
  match client_name with
  | EmptyString => s
  | _ => ElectrumX.set_client (substring 0 17 client_name) s
  end.

(** A client that offers the versions 1.4 to 1.10. *)
Definition offers_1_4_to_1_10 : ClientReq := mkClientReq "['1.4', '1.10']" [1; 4] [1; 10].

(** A server that drops the clients whose name starts with "bad". *)
Definition drops_bad : Env :=
  mkEnv 350000 1000 [rpc_service; tcp_service] (Some (String.prefix "bad")).

(** ** The session registry

    [add_session] and [remove_session] change the manager's tables and the
    group objects the tables refer to; [Registry] holds both, the
    reference handed to the next [SessionGroup] built, and the state of
    [session_event]. *)

(** [remote_address().host]: an [IPv4Address] of four octets, an
    [IPv6Address] of eight groups of sixteen bits, or anything else. *)
Inductive Host :=
| IPv4Address (a b c d : N)
| IPv6Address (hextets : list N)
| OtherHost.

(** What [add_session] reads of the session object it is given. *)
Record SessionAttrs := mkSessionAttrs { attr_start_time : Q; attr_host : Host }.

Record Registry := mkRegistry {
  heap : Heap;
  manager : SessionManager.t;
  next_group : nat;
  session_event : bool;
}.

(** How a call ended: normally, or with a [KeyError]. *)
Inductive completion := Completed | Raised_KeyError.

Definition set_session_groups (v : gmap string nat) (m : SessionManager.t) : SessionManager.t :=
  SessionManager.mk (SessionManager.servers m) (SessionManager.sessions m) v
    (SessionManager.txs_sent m) (SessionManager.start_time m)
    (SessionManager._method_counts m) (SessionManager._reorg_count m)
    (SessionManager._history_cache m) (SessionManager._history_lookups m)
    (SessionManager._history_hits m) (SessionManager._tx_hashes_cache m)
    (SessionManager._tx_hashes_lookups m) (SessionManager._tx_hashes_hits m)
    (SessionManager._merkle_cache m) (SessionManager._merkle_lookups m)
    (SessionManager._merkle_hits m) (SessionManager.estimatefee_cache m)
    (SessionManager.notified_height m) (SessionManager.hsub_results m).

(** Assignment to the attributes of the group object at a reference. *)
Definition set_group (group : nat) (v : SessionGroup.t) (h : Heap) : Heap :=
  mkHeap (session_cost h) (λ g, if decide (g = group) then v else group_at h g).

Definition set_heap (h : Heap) (w : Registry) : Registry :=
  mkRegistry h (manager w) (next_group w) (session_event w).
Definition set_manager (m : SessionManager.t) (w : Registry) : Registry :=
  mkRegistry (heap w) m (next_group w) (session_event w).

(** [int(x)] for a float: the integer part, towards zero. *)
Definition py_int (x : Q) : Z := Z.quot (Qnum x) (Z.pos (Qden x)).

Definition _timeslice_name (m : SessionManager.t) (attrs : SessionAttrs) : string :=
  "t" ++ format_d (py_int (attr_start_time attrs - SessionManager.start_time m) / 300).

(** ['.'.join(parts)] and the like. *)
Fixpoint join_with (sep : string) (parts : list string) : string :=
  match parts with
  | [] => ""
  | [part] => part
  | part :: parts' => part ++ sep ++ join_with sep parts'
  end.

(** A group of [IPv6Address.exploded]: four hexadecimal digits. *)
Definition hextet (n : N) : string :=
  String (hex_digit (n / 4096 mod 16))
    (String (hex_digit (n / 256 mod 16))
       (String (hex_digit (n / 16 mod 16))
          (String (hex_digit (n mod 16)) ""))).

(** [is_private] is the verdict of the [ipaddress] library on the host. *)
Definition _ip_addr_group_name (is_private : Host → bool) (attrs : SessionAttrs)
    : option string :=
  match attr_host attrs with
  | IPv4Address a b c d =>
      if is_private (attr_host attrs) then None
      else Some (join_with "." (take 3 (map (λ n, format_d (Z.of_N n)) [a; b; c; d])))
  | IPv6Address hextets =>
      if is_private (attr_host attrs) then None
      else Some (join_with ":" (take 3 (map hextet hextets)))
  | OtherHost => Some "unknown_addr"
  end.

(** The group of a name: the registered one, or a new one of the given
    weight with no session and no retained cost. *)
Definition _session_group (name : option string) (weight : Q) (w : Registry)
    : option nat * Registry :=
  match name with
  | None => (None, w)
  | Some name =>
      match SessionManager.session_groups (manager w) !! name with
      | Some group => (Some group, w)
      | None =>
          let group := next_group w in
          (Some group,
           mkRegistry
             (set_group group (SessionGroup.mk name weight ∅ 0%Q) (heap w))
             (set_session_groups
                (<[name := group]> (SessionManager.session_groups (manager w))) (manager w))
             (S group) (session_event w))
      end
  end.

(** [group.sessions.add(session)] *)
Definition group_add (session : nat) (g : SessionGroup.t) : SessionGroup.t :=
  SessionGroup.mk (SessionGroup.name g) (SessionGroup.weight g)
    ({[session]} ∪ SessionGroup.sessions g) (SessionGroup.retained_cost g).

Definition add_session (is_private : Host → bool) (session : nat) (attrs : SessionAttrs)
    (w : Registry) : Registry :=
  let w := mkRegistry (heap w) (manager w) (next_group w) true in
  let '(timeslice_group, w) :=
    _session_group (Some (_timeslice_name (manager w) attrs)) 0.03%Q w in
  let '(ip_group, w) := _session_group (_ip_addr_group_name is_private attrs) 1.0%Q w in
  let groups := omap id [timeslice_group; ip_group] in
  let w := set_manager
             (SessionManager.set_sessions
                (<[session := groups]> (SessionManager.sessions (manager w))) (manager w)) w in
  fold_left
    (λ w group, set_heap (set_group group (group_add session (group_at (heap w) group)) (heap w)) w)
    groups w.

(** The loop of [remove_session]: the group keeps the cost of the session,
    then forgets the session, which is a [KeyError] if it did not hold it. *)
Fixpoint leave_groups (session : nat) (groups : list nat) (w : Registry)
    : completion * Registry :=
  match groups with
  | [] => (Completed, w)
  | group :: groups' =>
      let g := group_at (heap w) group in
      let g := SessionGroup.mk (SessionGroup.name g) (SessionGroup.weight g)
                 (SessionGroup.sessions g)
                 (SessionGroup.retained_cost g + session_cost (heap w) session)%Q in
      let w := set_heap (set_group group g (heap w)) w in
      if decide (session ∈ SessionGroup.sessions g)
      then
        let g := SessionGroup.mk (SessionGroup.name g) (SessionGroup.weight g)
                   (SessionGroup.sessions g ∖ {[session]}) (SessionGroup.retained_cost g) in
        leave_groups session groups' (set_heap (set_group group g (heap w)) w)
      else (Raised_KeyError, w)
  end.

Definition remove_session (session : nat) (w : Registry) : completion * Registry :=
  let w := mkRegistry (heap w) (manager w) (next_group w) true in
  match SessionManager.sessions (manager w) !! session with
  | None => (Raised_KeyError, w)
  | Some groups =>
      let w := set_manager
                 (SessionManager.set_sessions
                    (delete session (SessionManager.sessions (manager w))) (manager w)) w in
      leave_groups session groups w
  end.

(** The first loop of a turn of [_recalc_concurrency] and the removal of
    the dead groups; [hard_limit] is [session_class.cost_hard_limit].  The
    second loop of the turn only touches the sessions. *)
Definition refund_group (refund : Q) (g : SessionGroup.t) : SessionGroup.t :=
  let reduced := (SessionGroup.retained_cost g - refund)%Q in
  SessionGroup.mk (SessionGroup.name g) (SessionGroup.weight g) (SessionGroup.sessions g)
    (if Qlt_le_dec 0 reduced then reduced else 0.0%Q).

Definition is_dead (g : SessionGroup.t) : bool :=
  Qeq_bool (SessionGroup.retained_cost g) 0 && bool_decide (SessionGroup.sessions g = ∅).

Fixpoint pop_groups (dead_groups : list nat) (w : Registry) : completion * Registry :=
  match dead_groups with
  | [] => (Completed, w)
  | group :: dead_groups' =>
      let name := SessionGroup.name (group_at (heap w) group) in
      match SessionManager.session_groups (manager w) !! name with
      | None => (Raised_KeyError, w)
      | Some _ =>
          pop_groups dead_groups'
            (set_manager
               (set_session_groups
                  (delete name (SessionManager.session_groups (manager w))) (manager w)) w)
      end
  end.

Definition _recalc_concurrency_groups (hard_limit : Q) (w : Registry)
    : completion * Registry :=
  let period := 300%Q in
  let refund := (period * hard_limit / 5000)%Q in
  let '(w, dead_groups) :=
    fold_left
      (λ '(w, dead_groups) group,
         let g := refund_group refund (group_at (heap w) group) in
         let w := set_heap (set_group group g (heap w)) w in
         (w, if is_dead g then (dead_groups ++ [group])%list else dead_groups))
      (map_to_list (SessionManager.session_groups (manager w))).*2
      (w, @nil nat) in
  pop_groups dead_groups w.

(** Applying [f] to the group objects of a list of references, one after
    the other. *)
Definition update_groups (f : SessionGroup.t → SessionGroup.t) (groups : list nat)
    (w : Registry) : Registry :=
  fold_left
    (λ w group, set_heap (set_group group (f (group_at (heap w) group)) (heap w)) w)
    groups w.

(** The tables and the group objects agree: a registered group carries
    the name it is registered under and a reference already handed out;
    the groups listed for a session are distinct registered groups that
    hold the session; and a session held by a registered group has that
    group in its list. *)
Record registry_ok (w : Registry) : Prop := mk_registry_ok {
  ok_named : ∀ name g,
    SessionManager.session_groups (manager w) !! name = Some g →
    SessionGroup.name (group_at (heap w) g) = name ∧ (g < next_group w)%nat;
  ok_member : ∀ s groups g,
    SessionManager.sessions (manager w) !! s = Some groups → g ∈ groups →
    s ∈ SessionGroup.sessions (group_at (heap w) g)
    ∧ SessionManager.session_groups (manager w)
        !! SessionGroup.name (group_at (heap w) g) = Some g;
  ok_nodup : ∀ s groups,
    SessionManager.sessions (manager w) !! s = Some groups → NoDup groups;
  ok_listed : ∀ name g s,
    SessionManager.session_groups (manager w) !! name = Some g →
    s ∈ SessionGroup.sessions (group_at (heap w) g) →
    ∃ groups, SessionManager.sessions (manager w) !! s = Some groups ∧ g ∈ groups;
}.

(** A group once a session of the given cost has left it. *)
Definition group_leave (cost : Q) (session : nat) (g : SessionGroup.t) : SessionGroup.t :=
  SessionGroup.mk (SessionGroup.name g) (SessionGroup.weight g)
    (SessionGroup.sessions g ∖ {[session]}) (SessionGroup.retained_cost g + cost)%Q.

(** A registry with no session and no group, where every session costs
    5.0, and two session objects. *)
Definition empty_registry : Registry :=
  mkRegistry (mkHeap (λ _, 5.0%Q) (λ _, SessionGroup.mk "" 0%Q ∅ 0%Q)) new_manager 0 false.

Definition public_session : SessionAttrs :=
  mkSessionAttrs 10.5%Q (IPv4Address 203 0 113 7).
Definition private_session : SessionAttrs :=
  mkSessionAttrs 650.0%Q (IPv4Address 192 168 1 20).

(** The verdict of [ipaddress] on the two hosts above. *)
Definition private_192_168 (host : Host) : bool :=
  match host with
  | IPv4Address 192 168 _ _ => true
  | _ => false
  end.

(** The name of a time slice starts with the letter t. *)
Definition starts_with_t (s : string) : Prop := ∃ rest, s = String "t" rest.

(** The registry once the session from 203.0.113.7 has been added. *)
Definition one_session_registry : Registry :=
  add_session private_192_168 1 public_session empty_registry.

(** The registry once that session has been removed again: its two
    groups are empty and retain its cost. *)
Definition vacated_registry : Registry :=
  snd (remove_session 1 one_session_registry).

(** ** Notification of a new height

    The part of [_notify_sessions] that changes the manager; the sessions
    are then notified with [touched] and [height_changed]. *)











(** ** Subscribing to a script hash *)

(** The alias stored with a subscription is the argument as it was sent. *)
Definition scripthash_subscribe (lib : Lib) (env : Env) (scripthash : param)
    (aw : Await SessionManager.t (string + History))
    (mempool : list MemPoolTxSummary) : M ElectrumX.State (option string) :=
  hashX ← ElectrumX.on_self (ElectrumX.scripthash_to_hashX lib scripthash);
  let alias := match scripthash with P_str s | P_other s => s end in
  ElectrumX.hashX_subscribe lib env hashX alias aw mempool.

(** [len(self.hashX_subs)] *)
Definition sub_count (s : ElectrumX.t) : nat := size (ElectrumX.hashX_subs s).

(** The script hash whose 32 bytes are all 0x22. *)
Definition scripthash_22 : param :=
  P_str "2222222222222222222222222222222222222222222222222222222222222222".

(** The database fails. *)
Definition db_fails : list (Await SessionManager.t (string + list bytes)) :=
  [mkAwait id (inl "corrupt block file")].

(** ** Malformed keys *)



(** ** References to sessions and groups

    [_session_references] sorts the items of a local RPC request.  The
    strings are taken to be ASCII, for which [isdigit], [int] and [lower]
    are as below. *)




















(** * Properties *)

(** ** The LRU cache *)

Section pylru_facts.
Context {K V : Type} `{EqDecision K}.
Implicit Types (c : pylru.lrucache K V) (l : list (K * V)).

Lemma assoc_remove_ne k k' l :
  k ≠ k' → pylru.assoc k (pylru.remove k' l) = pylru.assoc k l.
Proof.
  intros Hne. induction l as [|[k0 v0] l IH]; simpl; [done|].
  destruct (decide (k' = k0)) as [->|Hk'].
  - rewrite IH. destruct (decide (k = k0)); congruence.
  - simpl. destruct (decide (k = k0)); [done|apply IH].
Qed.

Lemma assoc_remove_eq k l : pylru.assoc k (pylru.remove k l) = None.
Proof.
  induction l as [|[k0 v0] l IH]; simpl; [done|].
  destruct (decide (k = k0)) as [->|Hk]; [done|].
  simpl. destruct (decide (k = k0)); [congruence|done].
Qed.

Lemma assoc_setitem_eq k v c :
  pylru.assoc k (pylru.items (pylru.setitem k v c)) = Some v.
Proof.
  unfold pylru.setitem. destruct (pylru.assoc k (pylru.items c)); simpl;
    destruct (decide (k = k)); congruence.
Qed.

Lemma getitem_Some k c v c' :
  pylru.getitem k c = Some (v, c') ↔
  pylru.assoc k (pylru.items c) = Some v
  ∧ c' = pylru.mk (pylru.cache_size c) ((k, v) :: pylru.remove k (pylru.items c)).
Proof.
  unfold pylru.getitem. destruct (pylru.assoc k (pylru.items c)); split.
  - intros [= -> <-]. done.
  - intros [[= ->] ->]. done.
  - done.
  - intros [? _]. done.
Qed.

Lemma getitem_None k c :
  pylru.getitem k c = None ↔ pylru.assoc k (pylru.items c) = None.
Proof. unfold pylru.getitem. destruct (pylru.assoc k (pylru.items c)); done. Qed.

(** A lookup keeps every binding of the cache. *)
Lemma assoc_getitem k c v c' k' :
  pylru.getitem k c = Some (v, c') →
  pylru.assoc k' (pylru.items c') = pylru.assoc k' (pylru.items c).
Proof.
  intros [Hk ->]%getitem_Some. simpl.
  destruct (decide (k' = k)) as [->|Hne]; [done|].
  by apply assoc_remove_ne.
Qed.

Lemma assoc_get k c k' :
  pylru.assoc k' (pylru.items (pylru.get k c).2) = pylru.assoc k' (pylru.items c).
Proof.
  unfold pylru.get. destruct (pylru.getitem k c) as [[v c']|] eqn:Hg; [|done].
  simpl. by eapply assoc_getitem.
Qed.

Lemma get_fst k c : (pylru.get k c).1 = pylru.assoc k (pylru.items c).
Proof.
  unfold pylru.get, pylru.getitem. by destruct (pylru.assoc k (pylru.items c)).
Qed.
End pylru_facts.

(** ** Reorganisations *)

(** C4.  One turn of the reorg handler, run when the block processor
    signals [backed_up], adds exactly 1 to [_reorg_count] and leaves
    [_tx_hashes_cache] and [_merkle_cache] empty (with their capacity);
    the history cache and every other attribute of the manager keep their
    value. *)
Theorem handle_chain_reorgs_iteration_frame (m : SessionManager.t) :
  let m' := SessionManager._handle_chain_reorgs_iteration m in
  SessionManager._reorg_count m' = SessionManager._reorg_count m + 1
  ∧ pylru.items (SessionManager._tx_hashes_cache m') = []
  ∧ pylru.items (SessionManager._merkle_cache m') = []
  ∧ pylru.cache_size (SessionManager._tx_hashes_cache m')
    = pylru.cache_size (SessionManager._tx_hashes_cache m)
  ∧ pylru.cache_size (SessionManager._merkle_cache m')
    = pylru.cache_size (SessionManager._merkle_cache m)
  ∧ SessionManager._history_cache m' = SessionManager._history_cache m
  ∧ SessionManager._history_lookups m' = SessionManager._history_lookups m
  ∧ SessionManager._history_hits m' = SessionManager._history_hits m
  ∧ SessionManager._tx_hashes_lookups m' = SessionManager._tx_hashes_lookups m
  ∧ SessionManager._tx_hashes_hits m' = SessionManager._tx_hashes_hits m
  ∧ SessionManager._merkle_lookups m' = SessionManager._merkle_lookups m
  ∧ SessionManager._merkle_hits m' = SessionManager._merkle_hits m
  ∧ SessionManager.servers m' = SessionManager.servers m
  ∧ SessionManager.sessions m' = SessionManager.sessions m
  ∧ SessionManager.session_groups m' = SessionManager.session_groups m
  ∧ SessionManager.txs_sent m' = SessionManager.txs_sent m
  ∧ SessionManager.start_time m' = SessionManager.start_time m
  ∧ SessionManager._method_counts m' = SessionManager._method_counts m
  ∧ SessionManager.estimatefee_cache m' = SessionManager.estimatefee_cache m
  ∧ SessionManager.notified_height m' = SessionManager.notified_height m
  ∧ SessionManager.hsub_results m' = SessionManager.hsub_results m.
Proof. destruct m. cbn. repeat split. Qed.

(** The handler's loop runs that turn once per signal, after whatever the
    other tasks did in between. *)
Lemma handle_chain_reorgs_snoc signals aw m :
  SessionManager._handle_chain_reorgs (signals ++ [aw]) m
  = SessionManager._handle_chain_reorgs_iteration
      (others aw (SessionManager._handle_chain_reorgs signals m)).
Proof. unfold SessionManager._handle_chain_reorgs. by rewrite fold_left_app. Qed.

(** Scenario B: a cache seeded at height 100 is empty after the signal. *)
Example reorg_invalidation_scenario :
  let m0 := SessionManager.mk [] ∅ ∅ 0 0%Q ∅ 7
              (pylru.new 1000) 0 0
              (pylru.setitem 100 [[x11]] (pylru.new 1000)) 0 0
              (pylru.setitem 100 [[x11]] (pylru.new 1000)) 0 0
              (pylru.new 1000) None None in
  let m1 := SessionManager._handle_chain_reorgs [mkAwait id tt] m0 in
  SessionManager._reorg_count m1 = 8
  ∧ pylru.len (SessionManager._tx_hashes_cache m1) = 0%nat
  ∧ pylru.len (SessionManager._merkle_cache m1) = 0%nat.
Proof. repeat split. Qed.

(** ** Unsubscribing *)

Lemma check_asset_valid name s :
  valid_asset_name name → ElectrumX.check_asset (P_str name) s = (Return name, s).
Proof.
  intros [Hlo Hhi]. unfold ElectrumX.check_asset.
  destruct (Z.leb_spec (Z.of_nat (String.length name)) 0); [lia|].
  destruct (Z.gtb_spec (Z.of_nat (String.length name)) 32); [lia|done].
Qed.

(** [unsubscribe_hashX] forgets the hashX in both tables and hands back
    the alias it was subscribed under, if any. *)
Lemma unsubscribe_hashX_spec hashX s :
  ElectrumX.unsubscribe_hashX hashX s
  = (Return (ElectrumX.hashX_subs s !! hashX),
     ElectrumX.set_hashX_subs (delete hashX (ElectrumX.hashX_subs s))
       (ElectrumX.set_mempool_statuses (delete hashX (ElectrumX.mempool_statuses s)) s)).
Proof. done. Qed.

(** [scripthash_to_hashX] reads no attribute of the session. *)
Lemma scripthash_to_hashX_pure lib scripthash s r s' :
  ElectrumX.scripthash_to_hashX lib scripthash s = (r, s') →
  s' = s ∧ ∀ s2, ElectrumX.scripthash_to_hashX lib scripthash s2 = (r, s2).
Proof.
  unfold ElectrumX.scripthash_to_hashX, ElectrumX.rpc_error, raise, mret, M_ret.
  destruct scripthash as [x|x]; [|by intros [= <- <-]].
  destruct (hex_str_to_hash lib x); [|by intros [= <- <-]].
  case_decide; by intros [= <- <-].
Qed.

(** The script hash kind does what the specification says: the answer
    tells whether the hashX was subscribed, and it is gone afterwards. *)
Lemma scripthash_unsubscribe_spec lib scripthash hashX s :
  fst (ElectrumX.scripthash_to_hashX lib scripthash s) = Return hashX →
  let r := ElectrumX.scripthash_unsubscribe lib scripthash s in
  fst r = Return (bool_decide (hashX ∈ dom (ElectrumX.hashX_subs s)))
  ∧ (hashX ∉ dom (ElectrumX.hashX_subs (snd r)))
  ∧ hashX ∉ dom (ElectrumX.mempool_statuses (snd r)).
Proof.
  intros Hx.
  destruct (ElectrumX.scripthash_to_hashX lib scripthash s) as [r0 s0] eqn:Hs.
  simpl in Hx. subst r0.
  apply scripthash_to_hashX_pure in Hs as [_ Hs].
  unfold ElectrumX.scripthash_unsubscribe, ElectrumX.bump_cost, modify, mbind, M_bind.
  rewrite Hs, unsubscribe_hashX_spec. cbn.
  split; [|split].
  - f_equal. destruct (ElectrumX.hashX_subs s !! hashX) eqn:Hl; simpl; symmetry.
    + apply bool_decide_eq_true. apply elem_of_dom. eauto.
    + apply bool_decide_eq_false. rewrite elem_of_dom, Hl. by intros [? ?].
  - apply not_elem_of_dom, lookup_delete_eq.
  - apply not_elem_of_dom, lookup_delete_eq.
Qed.

Lemma discard_is_not_None_spec `{Countable K} (subs : ElectrumX.t → gset K) set_subs key s :
  ElectrumX.discard_is_not_None subs set_subs key s
  = (Return false, set_subs (subs s ∖ {[key]}) s).
Proof. done. Qed.

(** C1.  For the seven subscription kinds kept in a set (asset,
    qualifier tag, h160 tag, broadcasts, is_frozen, verifier string,
    restricted associations) unsubscribing a well-formed key removes it
    from the set, but the answer is [False] whether or not the key was
    subscribed: [set.discard] evaluates to [None], so [is not None] never
    holds. *)
Theorem set_unsubscribe_always_False s :
  (∀ asset, valid_asset_name asset →
     ElectrumX.asset_unsubscribe (P_str asset) s
     = (Return false, ElectrumX.set_asset_subs (ElectrumX.asset_subs s ∖ {[asset]}) s))
  ∧ (∀ qualifier, valid_asset_name qualifier →
     ElectrumX.unsubscribe_qualifier_tagging (P_str qualifier) s
     = (Return false,
        ElectrumX.set_qualifier_tag_subs (ElectrumX.qualifier_tag_subs s ∖ {[qualifier]}) s))
  ∧ (∀ h160 h160_b, String.length h160 = 40%nat → fromhex h160 = Some h160_b →
     ElectrumX.unsubscribe_h160_tagged (P_str h160) s
     = (Return false,
        ElectrumX.set_h160_tag_subs (ElectrumX.h160_tag_subs s ∖ {[h160_b]}) s))
  ∧ (∀ asset, valid_asset_name asset →
     ElectrumX.unsubscribe_broadcast (P_str asset) s
     = (Return false,
        ElectrumX.set_broadcast_subs (ElectrumX.broadcast_subs s ∖ {[asset]}) s))
  ∧ (∀ asset, valid_asset_name asset →
     ElectrumX.unsubscribe_asset_freeze (P_str asset) s
     = (Return false, ElectrumX.set_frozen_subs (ElectrumX.frozen_subs s ∖ {[asset]}) s))
  ∧ (∀ asset, valid_asset_name asset →
     ElectrumX.unsubscribe_restricted_verification_change (P_str asset) s
     = (Return false,
        ElectrumX.set_validator_subs (ElectrumX.validator_subs s ∖ {[asset]}) s))
  ∧ (∀ asset, valid_asset_name asset → ElectrumX.first_is_not_hash asset = false →
     ElectrumX.unsubscribe_qualifier_associated_restricted (P_str asset) s
     = (Return false,
        ElectrumX.set_qualifier_validator_subs
          (ElectrumX.qualifier_validator_subs s ∖ {[asset]}) s)).
Proof.
  repeat split.
  - intros asset Hv. unfold ElectrumX.asset_unsubscribe, mbind, M_bind.
    by rewrite check_asset_valid.
  - intros asset Hv. unfold ElectrumX.unsubscribe_qualifier_tagging, mbind, M_bind.
    by rewrite check_asset_valid.
  - intros h160 h160_b Hlen Hhex. unfold ElectrumX.unsubscribe_h160_tagged, mbind, M_bind.
    unfold ElectrumX.check_h160. case_decide; [done|]. unfold mret, M_ret.
    by rewrite Hhex.
  - intros asset Hv. unfold ElectrumX.unsubscribe_broadcast, mbind, M_bind.
    by rewrite check_asset_valid.
  - intros asset Hv. unfold ElectrumX.unsubscribe_asset_freeze, mbind, M_bind.
    by rewrite check_asset_valid.
  - intros asset Hv.
    unfold ElectrumX.unsubscribe_restricted_verification_change, mbind, M_bind.
    by rewrite check_asset_valid.
  - intros asset Hv Hq.
    unfold ElectrumX.unsubscribe_qualifier_associated_restricted, mbind, M_bind.
    rewrite check_asset_valid by done. by rewrite Hq.
Qed.

(** A session subscribed to the asset [ABC] is told [False] when it
    unsubscribes from it. *)
Lemma set_unsubscribe_always_False_witness :
  let s := ElectrumX.set_asset_subs {["ABC"]} ElectrumX.init in
  "ABC" ∈ ElectrumX.asset_subs s
  ∧ valid_asset_name "ABC"
  ∧ (ElectrumX.asset_unsubscribe (P_str "ABC") s).1 = Return false
  ∧ "ABC" ∉ ElectrumX.asset_subs (ElectrumX.asset_unsubscribe (P_str "ABC") s).2.
Proof.
  intros s.
  assert (Hv : valid_asset_name "ABC") by (unfold valid_asset_name; simpl; lia).
  split; [|split; [exact Hv|]].
  - subst s. simpl. by apply elem_of_singleton.
  - rewrite (proj1 (set_unsubscribe_always_False s) "ABC" Hv). simpl.
    split; [reflexivity|].
    intros [_ Hin]%elem_of_difference. by apply Hin, elem_of_singleton.
Defined.

(** ** The status of a script hash *)

Lemma address_status_Return lib env hashX aw mempool st history cost m' :
  SessionManager.limited_history env hashX aw (ElectrumX.session_mgr st)
  = (Return (history, cost), m') →
  ElectrumX.address_status lib env hashX aw mempool st
  = (Return (status_of_text lib (ElectrumX.status_string lib history mempool)),
     ElectrumX.mkState
       (after_status lib hashX cost (ElectrumX.status_string lib history mempool)
          mempool (ElectrumX.self st))
       m').
Proof.
  intros Hh. unfold ElectrumX.address_status, ElectrumX.on_session_mgr, mbind, M_bind.
  rewrite Hh. unfold after_status, status_of_text, ElectrumX.on_self, ElectrumX.bump_cost,
    modify, mret, M_ret. cbn.
  destruct mempool; reflexivity.
Qed.

Lemma address_status_Raise lib env hashX aw mempool st e m' :
  SessionManager.limited_history env hashX aw (ElectrumX.session_mgr st) = (Raise e, m') →
  ElectrumX.address_status lib env hashX aw mempool st
  = (Raise e, ElectrumX.mkState (ElectrumX.self st) m').
Proof.
  intros Hh. unfold ElectrumX.address_status, ElectrumX.on_session_mgr, mbind, M_bind.
  by rewrite Hh.
Qed.

(** The manager either hands over a history or raises. *)
Lemma limited_history_cases env hashX aw (st : ElectrumX.State) :
  (∃ history cost m',
      SessionManager.limited_history env hashX aw (ElectrumX.session_mgr st)
      = (Return (history, cost), m'))
  ∨ (∃ e m',
      SessionManager.limited_history env hashX aw (ElectrumX.session_mgr st)
      = (Raise e, m')).
Proof.
  destruct (SessionManager.limited_history env hashX aw (ElectrumX.session_mgr st))
    as [[[history cost]|e] m']; eauto.
Qed.

Lemma append_nil_inv (a b : string) : a ++ b = "" → a = "" ∧ b = "".
Proof. destruct a; simpl; [done|discriminate]. Qed.

Lemma status_string_spec lib history mempool :
  ElectrumX.status_string lib history mempool
  = spec_confirmed_text lib history ++ spec_mempool_text lib mempool.
Proof.
  unfold ElectrumX.status_string. f_equal.
  - induction history as [|[tx_hash height] history IH]; simpl; [done|].
    by rewrite IH.
  - induction mempool as [|tx mempool IH]; simpl; [done|].
    by rewrite IH.
Qed.

Lemma entry_text_nonempty (a b rest : string) : (a ++ ":" ++ b ++ ":") ++ rest ≠ "".
Proof.
  intros [H1 _]%append_nil_inv. apply append_nil_inv in H1 as [_ H1]. discriminate.
Qed.

Lemma status_of_text_spec lib history mempool :
  status_of_text lib (ElectrumX.status_string lib history mempool)
  = spec_status lib history mempool.
Proof.
  rewrite status_string_spec. unfold spec_status, status_of_text.
  destruct history as [|[tx_hash height] history].
  - destruct mempool as [|tx mempool]; [done|].
    simpl spec_confirmed_text. cbn [spec_mempool_text].
    destruct ("" ++ _) eqn:Ht; [|done].
    simpl in Ht. by apply entry_text_nonempty in Ht.
  - cbn [spec_confirmed_text].
    destruct (_ ++ spec_mempool_text lib mempool) eqn:Ht; [|done].
    apply append_nil_inv in Ht as [Ht _]. by apply entry_text_nonempty in Ht.
Qed.

(** C2.  Whenever the manager hands [address_status] a confirmed history,
    the status returned is the one the specification words: the lowercase
    hexadecimal SHA-256 of the confirmed entries [hex(txhash):height:] in
    database order followed by the mempool entries
    [hex(txhash):-has_unconfirmed_inputs:] in mempool order, and null
    exactly when there is neither a confirmed nor a mempool transaction. *)
Theorem address_status_is_spec_status lib env hashX aw mempool st history cost m' :
  SessionManager.limited_history env hashX aw (ElectrumX.session_mgr st)
  = (Return (history, cost), m') →
  fst (ElectrumX.address_status lib env hashX aw mempool st)
  = Return (spec_status lib history mempool)
  ∧ (spec_status lib history mempool = None ↔ history = [] ∧ mempool = []).
Proof.
  intros Hh. erewrite address_status_Return by exact Hh. simpl.
  rewrite status_of_text_spec. split; [done|].
  unfold spec_status. destruct history, mempool; split; try done.
  - by intros [_ [=]].
  - by intros [[=] _].
  - by intros [[=] _].
Qed.

(** Scenario C: the history [[(0x11..11, 100)]] with no mempool
    transaction has the status SHA256("1111...11:100:") in hexadecimal. *)
Lemma address_status_is_spec_status_witness :
  let history := [(repeat x11 32, 100)] in
  let aw := mkAwait id (inr history) in
  let st := ElectrumX.mkState ElectrumX.init new_manager in
  fst (ElectrumX.address_status model_lib default_env (repeat x11 11) aw [] st)
  = Return (Some "b464a7e7093a870ab2162fe8b91e608dfc846fe815a3d16100c986435794654e")
  ∧ hex (SHA256.sha256
           (str_encode
              "1111111111111111111111111111111111111111111111111111111111111111:100:"))
    = "b464a7e7093a870ab2162fe8b91e608dfc846fe815a3d16100c986435794654e".
Proof.
  intros history aw st.
  split; [|vm_compute; reflexivity].
  refine (let H := address_status_is_spec_status model_lib default_env (repeat x11 11)
                     aw [] st history _ _ _ in _).
  Unshelve.
  4:{ cbv. reflexivity. }
  destruct H as [H _]. rewrite H. vm_compute. reflexivity.
Defined.

Lemma pair_of_fst {A B} (p : A * B) (a : A) : fst p = a → p = (a, snd p).
Proof. destruct p. simpl. congruence. Qed.

(** ** The mempool statuses *)

Lemma after_status_mempool_statuses lib hashX cost text mempool s :
  ElectrumX.mempool_statuses (after_status lib hashX cost text mempool s)
  = match mempool with
    | _ :: _ => <[hashX := status_of_text lib text]> (ElectrumX.mempool_statuses s)
    | [] => delete hashX (ElectrumX.mempool_statuses s)
    end.
Proof. unfold after_status. by destruct mempool. Qed.

Lemma after_status_hashX_subs lib hashX cost text mempool s :
  ElectrumX.hashX_subs (after_status lib hashX cost text mempool s) = ElectrumX.hashX_subs s.
Proof. unfold after_status. by destruct mempool. Qed.

Lemma after_status_tracks lib hashX cost text mempool s :
  tracks_mempool hashX mempool (status_of_text lib text) s
    (after_status lib hashX cost text mempool s).
Proof.
  unfold tracks_mempool. rewrite after_status_mempool_statuses.
  destruct mempool as [|tx mempool].
  - split; [|split].
    + split; [|done]. intros Hin%elem_of_dom.
      rewrite lookup_delete_eq in Hin. by destruct Hin.
    + done.
    + intros k Hk. by rewrite lookup_delete_ne.
  - split; [|split].
    + split; [done|]. intros _. apply elem_of_dom.
      rewrite lookup_insert_eq. by eexists.
    + intros _. by rewrite lookup_insert_eq.
    + intros k Hk. by rewrite lookup_insert_ne.
Qed.

(** C8.  After a completed [address_status(hashX)] the hashX is a key of
    [mempool_statuses] exactly when at least one mempool transaction went
    into the status just computed (and then it maps to that status), and
    no other key changes; a failed computation leaves the table as it was.
    The same holds after a subscription and after a recomputation during
    a notification, which drops the entry when the computation fails;
    unsubscribing removes the entry. *)
Theorem mempool_statuses_tracks_mempool lib env hashX aw mempool st :
  (∀ status st',
      ElectrumX.address_status lib env hashX aw mempool st = (Return status, st') →
      tracks_mempool hashX mempool status (ElectrumX.self st) (ElectrumX.self st'))
  ∧ (∀ e st',
      ElectrumX.address_status lib env hashX aw mempool st = (Raise e, st') →
      ElectrumX.mempool_statuses (ElectrumX.self st')
      = ElectrumX.mempool_statuses (ElectrumX.self st))
  ∧ (∀ alias status st',
      ElectrumX.hashX_subscribe lib env hashX alias aw mempool st = (Return status, st') →
      tracks_mempool hashX mempool status (ElectrumX.self st) (ElectrumX.self st')
      ∧ ElectrumX.hashX_subs (ElectrumX.self st') !! hashX = Some alias)
  ∧ (∀ status st',
      ElectrumX.subscription_address_status lib env hashX aw mempool st
      = (Return status, st') →
      (ElectrumX.address_status lib env hashX aw mempool st = (Return status, st')
       ∧ tracks_mempool hashX mempool status (ElectrumX.self st) (ElectrumX.self st'))
      ∨ ((∃ e, fst (ElectrumX.address_status lib env hashX aw mempool st)
               = Raise (Raise_RPCError e))
         ∧ hashX ∉ dom (ElectrumX.mempool_statuses (ElectrumX.self st'))))
  ∧ ((hashX ∉ dom (ElectrumX.mempool_statuses
                     (snd (ElectrumX.unsubscribe_hashX hashX (ElectrumX.self st)))))
     ∧ ∀ k, k ≠ hashX →
         ElectrumX.mempool_statuses
           (snd (ElectrumX.unsubscribe_hashX hashX (ElectrumX.self st))) !! k
         = ElectrumX.mempool_statuses (ElectrumX.self st) !! k).
Proof.
  destruct (limited_history_cases env hashX aw st)
    as [(history & cost & m' & Hh)|(e & m' & Hh)].
  - pose proof (address_status_Return lib env hashX aw mempool st history cost m' Hh) as Ha.
    split; [|split; [|split; [|split]]].
    + intros status st'. rewrite Ha. intros [= <- <-]. apply after_status_tracks.
    + intros e st'. by rewrite Ha.
    + intros alias status st'. unfold ElectrumX.hashX_subscribe, mbind, M_bind.
      rewrite Ha. unfold ElectrumX.on_self, modify, mret, M_ret. cbn.
      intros [= <- <-]. cbn. split; [apply after_status_tracks|].
      by rewrite lookup_insert_eq.
    + intros status st'. unfold ElectrumX.subscription_address_status, try_except_RPCError.
      rewrite Ha. intros [= <- <-]. left. split; [done|apply after_status_tracks].
    + rewrite unsubscribe_hashX_spec. cbn. split.
      * apply not_elem_of_dom, lookup_delete_eq.
      * intros k Hk. by rewrite lookup_delete_ne.
  - pose proof (address_status_Raise lib env hashX aw mempool st e m' Hh) as Ha.
    split; [|split; [|split; [|split]]].
    + intros status st'. by rewrite Ha.
    + intros e' st'. rewrite Ha. by intros [= _ <-].
    + intros alias status st'. unfold ElectrumX.hashX_subscribe, mbind, M_bind.
      by rewrite Ha.
    + intros status st'. unfold ElectrumX.subscription_address_status, try_except_RPCError.
      rewrite Ha. destruct e as [e| | |]; try done.
      unfold mbind, M_bind, ElectrumX.on_self. rewrite unsubscribe_hashX_spec. cbn.
      intros [= <- <-]. right. split; [by eexists|].
      cbn. apply not_elem_of_dom, lookup_delete_eq.
    + rewrite unsubscribe_hashX_spec. cbn. split.
      * apply not_elem_of_dom, lookup_delete_eq.
      * intros k Hk. by rewrite lookup_delete_ne.
Qed.

(** With one unconfirmed transaction the status of the script hash is kept
    in [mempool_statuses]. *)
Lemma mempool_statuses_tracks_mempool_witness :
  tracks_mempool hashX_22 [unconfirmed_tx]
    (Some "7e72d8959fc79e55a884b1bd36206d2f539e80bf4cc5a179973911f11b5d3fd3")
    (ElectrumX.self fresh_state)
    (ElectrumX.self
       (snd (ElectrumX.address_status model_lib default_env hashX_22 no_history
               [unconfirmed_tx] fresh_state))).
Proof.
  apply (proj1 (mempool_statuses_tracks_mempool model_lib default_env hashX_22 no_history
                  [unconfirmed_tx] fresh_state)).
  apply pair_of_fst. vm_compute. reflexivity.
Defined.

(** ** A subscription whose status cannot be computed *)

(** C10.  When [address_status] raises an [RPCError] during a
    notification, [subscription_address_status] raises nothing: it reports
    the status null, and the hashX is gone from [hashX_subs] and from
    [mempool_statuses]; the other subscriptions are untouched. *)
Theorem subscription_discarded_on_RPCError lib env hashX aw mempool st e st1 :
  ElectrumX.address_status lib env hashX aw mempool st = (Raise (Raise_RPCError e), st1) →
  let r := ElectrumX.subscription_address_status lib env hashX aw mempool st in
  fst r = Return None
  ∧ (hashX ∉ dom (ElectrumX.hashX_subs (ElectrumX.self (snd r))))
  ∧ (hashX ∉ dom (ElectrumX.mempool_statuses (ElectrumX.self (snd r))))
  ∧ ∀ k, k ≠ hashX →
      ElectrumX.hashX_subs (ElectrumX.self (snd r)) !! k
      = ElectrumX.hashX_subs (ElectrumX.self st) !! k
      ∧ ElectrumX.mempool_statuses (ElectrumX.self (snd r)) !! k
        = ElectrumX.mempool_statuses (ElectrumX.self st) !! k.
Proof.
  intros Ha r. subst r.
  unfold ElectrumX.subscription_address_status, try_except_RPCError. rewrite Ha.
  assert (Hself : ElectrumX.self st1 = ElectrumX.self st).
  { destruct (limited_history_cases env hashX aw st)
      as [(history & cost & m' & Hh)|(e' & m' & Hh)].
    - by rewrite (address_status_Return lib env hashX aw mempool st history cost m' Hh) in Ha.
    - rewrite (address_status_Raise lib env hashX aw mempool st e' m' Hh) in Ha.
      by injection Ha as _ <-. }
  unfold mbind, M_bind, ElectrumX.on_self. rewrite unsubscribe_hashX_spec, Hself. cbn.
  split; [done|]. split; [|split].
  - apply not_elem_of_dom, lookup_delete_eq.
  - apply not_elem_of_dom, lookup_delete_eq.
  - intros k Hk. by rewrite !lookup_delete_ne.
Qed.

Lemma subscription_discarded_on_RPCError_witness :
  let r := ElectrumX.subscription_address_status model_lib default_env hashX_22
             no_history [] oversized_state in
  fst r = Return None
  ∧ (hashX_22 ∉ dom (ElectrumX.hashX_subs (ElectrumX.self (snd r))))
  ∧ hashX_22 ∉ dom (ElectrumX.mempool_statuses (ElectrumX.self (snd r))).
Proof.
  pose proof (subscription_discarded_on_RPCError model_lib default_env hashX_22
                no_history [] oversized_state too_large _
                (pair_of_fst _ _ ltac:(vm_compute; reflexivity))) as H.
  intros r. destruct H as (H1 & H2 & H3 & _). done.
Defined.

(** ** The history cache *)

Lemma limited_history_hit env hashX aw m result :
  pylru.assoc hashX (pylru.items (SessionManager._history_cache m)) = Some result →
  SessionManager.limited_history env hashX aw m
  = SessionManager.raise_or_return result 0.1%Q
      (SessionManager.set_history_hits (SessionManager._history_hits m + 1)
         (SessionManager.set_history_cache
            (pylru.mk (pylru.cache_size (SessionManager._history_cache m))
               ((hashX, result)
                :: pylru.remove hashX (pylru.items (SessionManager._history_cache m))))
            (SessionManager.set_history_lookups (SessionManager._history_lookups m + 1) m))).
Proof.
  intros Hc. unfold SessionManager.limited_history. cbn.
  unfold pylru.getitem. by rewrite Hc.
Qed.

Lemma limited_history_miss env hashX aw m history :
  pylru.assoc hashX (pylru.items (SessionManager._history_cache m)) = None →
  answer aw = inr history →
  let cost := (0.1 + (0.1 + inject_Z (Z.of_nat (length history)) * 0.001))%Q in
  let result :=
    if Z.of_nat (length history) >=? max_send env / 99
    then inl (mkRPCError BAD_REQUEST "history too large" cost)
    else inr history in
  let m1 := others aw
              (SessionManager.set_history_lookups (SessionManager._history_lookups m + 1) m) in
  SessionManager.limited_history env hashX aw m
  = SessionManager.raise_or_return result cost
      (SessionManager.set_history_cache
         (pylru.setitem hashX result (SessionManager._history_cache m1)) m1).
Proof.
  intros Hc Ha. unfold SessionManager.limited_history. cbn.
  unfold pylru.getitem. by rewrite Hc, Ha.
Qed.

Lemma cached_error_raised env hashX m e aw :
  pylru.assoc hashX (pylru.items (SessionManager._history_cache m)) = Some (inl e) →
  fst (SessionManager.limited_history env hashX aw m) = Raise (Raise_RPCError e)
  ∧ pylru.assoc hashX
      (pylru.items (SessionManager._history_cache
                      (snd (SessionManager.limited_history env hashX aw m))))
    = Some (inl e).
Proof.
  intros Hc. rewrite (limited_history_hit env hashX aw m _ Hc). cbn.
  split; [done|]. by destruct (decide (hashX = hashX)).
Qed.

(** C5.  When [limited_history] misses the history cache and the database
    answers with a history of at least [max_send // 99] entries, an
    [RPCError] "history too large" is stored in the cache under the hashX
    and raised.  As long as that entry is in the cache, every call for the
    hashX raises the stored error, whatever the database would answer (it
    is not consulted), and keeps the entry. *)
Theorem history_too_large_is_cached env hashX :
  (∀ aw m history,
      pylru.assoc hashX (pylru.items (SessionManager._history_cache m)) = None →
      answer aw = inr history →
      max_send env / 99 ≤ Z.of_nat (length history) →
      let e := mkRPCError BAD_REQUEST "history too large"
                 (0.1 + (0.1 + inject_Z (Z.of_nat (length history)) * 0.001))%Q in
      let r := SessionManager.limited_history env hashX aw m in
      fst r = Raise (Raise_RPCError e)
      ∧ pylru.assoc hashX (pylru.items (SessionManager._history_cache (snd r)))
        = Some (inl e))
  ∧ (∀ m e,
      pylru.assoc hashX (pylru.items (SessionManager._history_cache m)) = Some (inl e) →
      (∀ aw,
          fst (SessionManager.limited_history env hashX aw m) = Raise (Raise_RPCError e)
          ∧ pylru.assoc hashX
              (pylru.items (SessionManager._history_cache
                              (snd (SessionManager.limited_history env hashX aw m))))
            = Some (inl e))
      ∧ (∀ aw aw',
          SessionManager.limited_history env hashX aw m
          = SessionManager.limited_history env hashX aw' m)
      ∧ (∀ aws, Forall (λ r, r = Raise (Raise_RPCError e))
                  (limited_history_calls env hashX aws m))).
Proof.
  split.
  - intros aw m history Hc Ha Hlen e r. subst r.
    rewrite (limited_history_miss env hashX aw m history Hc Ha). cbn zeta.
    destruct (Z.geb_spec (Z.of_nat (length history)) (max_send env / 99)) as [_|?]; [|lia].
    cbn. split; [done|]. apply assoc_setitem_eq.
  - intros m e Hc. split; [|split].
    + intros aw. by apply cached_error_raised.
    + intros aw aw'.
      by rewrite (limited_history_hit env hashX aw m _ Hc),
                 (limited_history_hit env hashX aw' m _ Hc).
    + intros aws. revert m Hc. induction aws as [|aw aws IH]; intros m Hc; simpl.
      * constructor.
      * destruct (cached_error_raised env hashX m e aw Hc) as [Hr Hc'].
        constructor; [done|]. by apply IH.
Qed.

Lemma history_too_large_is_cached_witness :
  let r := SessionManager.limited_history default_env hashX_22 long_history new_manager in
  fst r = Raise (Raise_RPCError
                   (mkRPCError BAD_REQUEST "history too large"
                      (0.1 + (0.1 + inject_Z (Z.of_nat
                         (length (repeat (repeat x44 32, 7) 3535))) * 0.001))%Q))
  ∧ pylru.contains hashX_22 (SessionManager._history_cache (snd r)) = true.
Proof.
  intros r.
  destruct (proj1 (history_too_large_is_cached default_env hashX_22)
              long_history new_manager (repeat (repeat x44 32, 7) 3535)
              eq_refl eq_refl ltac:(by vm_compute)) as [H1 H2].
  split; [exact H1|].
  unfold pylru.contains. subst r. by rewrite H2.
Defined.

(** ** The transaction hashes of a block *)

(** The loop of the source is the fetch the specification words. *)
Lemma fetch_fresh_spec awaits m tx_hashes m' :
  SessionManager.fetch_fresh awaits m = Some (Return tx_hashes, m')
  ↔ fresh_fetch awaits m tx_hashes m'.
Proof.
  split.
  - revert m. induction awaits as [|aw awaits IH]; intros m; simpl; [done|].
    destruct (answer aw) as [e|hashes] eqn:Ha; [done|].
    destruct (Z.eqb_spec (SessionManager._reorg_count m)
                (SessionManager._reorg_count (others aw m))) as [Heq|Hne].
    + intros [= <- <-]. by apply fresh_stable.
    + intros Hf. eapply fresh_retry; [done|congruence|by apply IH].
  - induction 1 as [aw awaits m tx_hashes Ha Heq
                   |aw awaits m discarded tx_hashes m' Ha Hne _ IH]; simpl; rewrite Ha.
    + rewrite <- Heq, Z.eqb_refl. done.
    + destruct (Z.eqb_spec (SessionManager._reorg_count m)
                  (SessionManager._reorg_count (others aw m))); [congruence|done].
Qed.

(** An answer that arrives after the reorg count moved plays no part in
    what follows: any other answer leads to the same outcome. *)
Lemma superseded_answer_discarded aw awaits m discarded other :
  answer aw = inr discarded →
  SessionManager._reorg_count (others aw m) ≠ SessionManager._reorg_count m →
  SessionManager.fetch_fresh (aw :: awaits) m
  = SessionManager.fetch_fresh awaits (others aw m)
  ∧ SessionManager.fetch_fresh (mkAwait (others aw) (inr other) :: awaits) m
    = SessionManager.fetch_fresh (aw :: awaits) m.
Proof.
  intros Ha Hne. simpl. rewrite Ha.
  destruct (Z.eqb_spec (SessionManager._reorg_count m)
              (SessionManager._reorg_count (others aw m))); [congruence|done].
Qed.

(** The hashes that a fetch keeps are the answer of one call of the
    database, and [_reorg_count] is the same when that call completes as
    when it started. *)
Lemma fresh_fetch_generation awaits m tx_hashes m' :
  fresh_fetch awaits m tx_hashes m' →
  ∃ before aw after m_start,
    awaits = (before ++ aw :: after)%list
    ∧ answer aw = inr tx_hashes
    ∧ m' = others aw m_start
    ∧ SessionManager._reorg_count m' = SessionManager._reorg_count m_start.
Proof.
  induction 1 as [aw awaits m tx_hashes Ha Heq
                 |aw awaits m discarded tx_hashes m' Ha Hne _ IH].
  - by exists [], aw, awaits, m.
  - destruct IH as (before & aw' & after & m_start & -> & Ha' & -> & Heq).
    by exists (aw :: before), aw', after, m_start.
Qed.

(** The digest of FIPS 180-4 for the message "abc". *)
Example sha256_abc :
  hex (SHA256.sha256 (str_encode "abc"))
  = "ba7816bf8f01cfea414140de5dae2223b00361a396177a9cb410ff61f20015ad".
Proof. vm_compute. reflexivity. Qed.

Lemma tx_hashes_at_blockheight_unfold height awaits m :
  SessionManager.tx_hashes_at_blockheight height awaits m
  = match pylru.assoc height (pylru.items (SessionManager._tx_hashes_cache m)) with
    | Some (tx_hash :: rest) =>
        Some (Return (tx_hash :: rest, 0.1%Q),
              SessionManager.set_tx_hashes_hits
                (SessionManager._tx_hashes_hits m + 1) (after_lookup height m))
    | _ =>
        match SessionManager.fetch_fresh awaits (after_lookup height m) with
        | None => None
        | Some (Raise e, m') => Some (Raise e, m')
        | Some (Return tx_hashes, m') =>
            Some (Return (tx_hashes,
                          (0.25 + inject_Z (Z.of_nat (length tx_hashes)) * 0.0001)%Q),
                  install height tx_hashes m')
        end
    end.
Proof.
  unfold SessionManager.tx_hashes_at_blockheight, after_lookup. cbn.
  rewrite (surjective_pairing (pylru.get height (SessionManager._tx_hashes_cache m))).
  rewrite get_fst.
  destruct (pylru.assoc height (pylru.items (SessionManager._tx_hashes_cache m)))
    as [[|tx_hash rest]|]; reflexivity.
Qed.

(** C3.  A call that counts a cache hit returns the cached hashes at cost
    0.1 and adds 1 to [_tx_hashes_hits].  Any other call returns hashes
    exactly when the fetch the specification words produces them: they
    are the answer of a database fetch during which [_reorg_count] did not
    move, every earlier answer having been discarded because it did; they
    are then installed in [_tx_hashes_cache] and the cost is
    0.25 + 0.0001 n for n hashes. *)
Theorem tx_hashes_installed_only_when_fresh height awaits m :
  (∀ tx_hash rest,
      pylru.assoc height (pylru.items (SessionManager._tx_hashes_cache m))
      = Some (tx_hash :: rest) →
      SessionManager.tx_hashes_at_blockheight height awaits m
      = Some (Return (tx_hash :: rest, 0.1%Q),
              SessionManager.set_tx_hashes_hits
                (SessionManager._tx_hashes_hits m + 1) (after_lookup height m)))
  ∧ (¬ tx_hashes_hit height m →
     ∀ tx_hashes cost m'',
       SessionManager.tx_hashes_at_blockheight height awaits m
       = Some (Return (tx_hashes, cost), m'')
       ↔ ∃ m', fresh_fetch awaits (after_lookup height m) tx_hashes m'
               ∧ m'' = install height tx_hashes m'
               ∧ cost = (0.25 + inject_Z (Z.of_nat (length tx_hashes)) * 0.0001)%Q).
Proof.
  rewrite tx_hashes_at_blockheight_unfold. split.
  - intros tx_hash rest ->. done.
  - intros Hmiss tx_hashes cost m''.
    assert (Hm : match pylru.assoc height (pylru.items (SessionManager._tx_hashes_cache m))
                 with Some (_ :: _) => False | _ => True end).
    { destruct (pylru.assoc height _) as [[|tx_hash rest]|] eqn:Hc; try done.
      apply Hmiss. by exists tx_hash, rest. }
    assert (Hgoal :
      match SessionManager.fetch_fresh awaits (after_lookup height m) with
      | None => None
      | Some (Raise e, m') => Some (Raise e, m')
      | Some (Return tx_hashes, m') =>
          Some (Return (tx_hashes,
                        (0.25 + inject_Z (Z.of_nat (length tx_hashes)) * 0.0001)%Q),
                install height tx_hashes m')
      end = Some (Return (tx_hashes, cost), m'')
      ↔ ∃ m', fresh_fetch awaits (after_lookup height m) tx_hashes m'
              ∧ m'' = install height tx_hashes m'
              ∧ cost = (0.25 + inject_Z (Z.of_nat (length tx_hashes)) * 0.0001)%Q).
    { split.
      - destruct (SessionManager.fetch_fresh awaits (after_lookup height m))
          as [[[hashes|e] m']|] eqn:Hf; [|done|done].
        intros [= -> <- <-]. exists m'. split; [by apply fetch_fresh_spec|done].
      - intros (m' & Hf & -> & ->). apply fetch_fresh_spec in Hf. by rewrite Hf. }
    destruct (pylru.assoc height _) as [[|tx_hash rest]|]; done.
Qed.

Lemma tx_hashes_installed_only_when_fresh_witness :
  ∃ m'',
    SessionManager.tx_hashes_at_blockheight 100 reorg_then_quiet new_manager
    = Some (Return (fresh_hashes, (0.25 + inject_Z 1 * 0.0001)%Q), m'')
    ∧ pylru.assoc 100 (pylru.items (SessionManager._tx_hashes_cache m''))
      = Some fresh_hashes.
Proof.
  eexists. split.
  - apply (proj2 (tx_hashes_installed_only_when_fresh 100 reorg_then_quiet new_manager)).
    + intros (tx_hash & rest & Hc). discriminate Hc.
    + eexists. split; [|split; reflexivity].
      eapply fresh_retry; [reflexivity|by vm_compute|].
      apply fresh_stable; reflexivity.
  - reflexivity.
Defined.

(** ** Admission control *)

(** Stopping the servers that are not RPC servers leaves RPC servers
    only, if the other tasks start none meanwhile. *)
Lemma stop_external_only_rpc io m :
  (∀ m', SessionManager.servers (SessionManager.during_stop io m')
         = SessionManager.servers m') →
  Forall (λ service, SessionManager.is_rpc service = true)
    (SessionManager.servers (stop_external io m)).
Proof.
  intros Hframe. unfold stop_external, SessionManager._stop_servers.
  set (server_map := filter _ (SessionManager.servers m)).
  assert (Hs : SessionManager.servers
                 (match server_map with
                  | [] => SessionManager.set_servers
                            (filter (λ service, negb (bool_decide (service ∈ server_map)))
                               (SessionManager.servers m)) m
                  | _ :: _ => SessionManager.during_stop io
                                (SessionManager.set_servers
                                   (filter (λ service, negb (bool_decide (service ∈ server_map)))
                                      (SessionManager.servers m)) m)
                  end)
               = filter (λ service, negb (bool_decide (service ∈ server_map)))
                   (SessionManager.servers m)).
  { destruct server_map; [done|]. by rewrite Hframe. }
  rewrite Hs. apply Forall_forall. intros service [Hnot Hin]%list_elem_of_filter.
  destruct (SessionManager.is_rpc service) eqn:Hrpc; [done|].
  exfalso. apply negb_prop_elim in Hnot. apply Hnot. apply bool_decide_pack.
  subst server_map. apply list_elem_of_filter. split.
  - apply bool_decide_pack.
    apply list_elem_of_filter. split; [by rewrite Hrpc|done].
  - done.
Qed.

Lemma manage_servers_iteration_unfold env io paused m :
  SessionManager._manage_servers_iteration env io (paused, m)
  = let m := SessionManager.woken io m in
    if negb paused && (session_count m >=? max_sessions env)
    then let m := stop_external io m in
         if session_count m <=? low_watermark env
         then (false, SessionManager._start_external_servers env io m)
         else (true, m)
    else if paused && (session_count m <=? low_watermark env)
         then (false, SessionManager._start_external_servers env io m)
         else (paused, m).
Proof.
  unfold SessionManager._manage_servers_iteration, session_count, low_watermark, stop_external.
  cbn zeta.
  destruct (negb paused && _); cbn; [done|].
  by destruct paused.
Qed.

(** C6, as amended.  A wake-up of the admission loop that finds it not
    paused and the session count at [max_sessions] or more stops every
    listener that is not an RPC listener and pauses.  Once paused, a
    wake-up restarts the external listeners exactly when it finds the
    session count at or below the low watermark
    [max_sessions * 19 // 20], and stays paused otherwise.  The watermark
    of [max_sessions = 10] is 9. *)
Theorem admission_hysteresis env io m :
  let woke := SessionManager.woken io m in
  (session_count woke >= max_sessions env →
   (∀ m', SessionManager.servers (SessionManager.during_stop io m')
          = SessionManager.servers m') →
   Forall (λ service, SessionManager.is_rpc service = true)
     (SessionManager.servers (stop_external io woke))
   ∧ SessionManager._manage_servers_iteration env io (false, m)
     = if session_count (stop_external io woke) <=? low_watermark env
       then (false, SessionManager._start_external_servers env io (stop_external io woke))
       else (true, stop_external io woke))
  ∧ (session_count woke < max_sessions env →
     SessionManager._manage_servers_iteration env io (false, m) = (false, woke))
  ∧ (session_count woke <= low_watermark env →
     SessionManager._manage_servers_iteration env io (true, m)
     = (false, SessionManager._start_external_servers env io woke))
  ∧ (session_count woke > low_watermark env →
     SessionManager._manage_servers_iteration env io (true, m) = (true, woke))
  ∧ (max_sessions env = 10 → low_watermark env = 9).
Proof.
  intros woke. rewrite !manage_servers_iteration_unfold. cbn zeta. fold woke.
  split; [|split; [|split; [|split]]].
  - intros Hn Hframe. split; [by apply stop_external_only_rpc|].
    cbn. destruct (Z.geb_spec (session_count woke) (max_sessions env)); [done|lia].
  - intros Hn. cbn.
    destruct (Z.geb_spec (session_count woke) (max_sessions env)); [lia|done].
  - intros Hn. cbn.
    destruct (Z.leb_spec (session_count woke) (low_watermark env)); [done|lia].
  - intros Hn. cbn.
    destruct (Z.leb_spec (session_count woke) (low_watermark env)); [lia|done].
  - unfold low_watermark. by intros ->.
Qed.

(** Paused with 9 sessions, the loop reopens the TCP listener. *)
Lemma admission_hysteresis_witness :
  session_count (with_sessions 9 listening) <= low_watermark env_10
  ∧ SessionManager._manage_servers_iteration env_10 (wake_with 9) (true, stop_external (wake_with 10) listening)
    = (false,
       SessionManager._start_external_servers env_10 (wake_with 9)
         (with_sessions 9 (stop_external (wake_with 10) listening))).
Proof.
  assert (H : session_count (with_sessions 9 (stop_external (wake_with 10) listening))
              <= low_watermark env_10) by (by vm_compute).
  split; [by vm_compute|].
  exact (proj1 (proj2 (proj2 (admission_hysteresis env_10 (wake_with 9)
                                (stop_external (wake_with 10) listening)))) H).
Defined.

(** With 9 sessions the loop has already reopened the listeners. *)
Lemma listeners_reopen_at_nine : ¬ admission_scenario_as_specified.
Proof. intros (_ & H & _). vm_compute in H. discriminate H. Qed.

Example listeners_closed_at_ten :
  SessionManager._manage_servers env_10 [wake_with 10] listening
  = (true, with_sessions 10 (SessionManager.set_servers [rpc_service] listening)).
Proof. vm_compute. reflexivity. Qed.

(** ** Group cost *)

Lemma fold_left_Qsum {A} (f : A → Q) (l : list A) (acc : Q) :
  (fold_left (λ acc x, acc + f x) l acc == acc + Qsum (map f l))%Q.
Proof.
  revert acc. induction l as [|x l IH]; intros acc; simpl.
  - symmetry. apply Qplus_0_r.
  - rewrite IH. symmetry. apply Qplus_assoc.
Qed.

Lemma Qsum_map_ext {A} (f g : A → Q) (l : list A) :
  (∀ x, f x == g x)%Q → (Qsum (map f l) == Qsum (map g l))%Q.
Proof.
  intros Hfg. induction l as [|x l IH]; simpl; [reflexivity|].
  by rewrite (Hfg x), IH.
Qed.

Lemma group_cost_spec (h : Heap) (g : SessionGroup.t) :
  (SessionGroup.cost (session_cost h) g == spec_group_cost h g)%Q.
Proof.
  unfold SessionGroup.cost, SessionGroup.session_cost, spec_group_cost.
  rewrite (fold_left_Qsum (session_cost h)). by rewrite Qplus_0_l.
Qed.

(** C7.  For a session in the manager's table, [extra_cost] is the sum
    over its groups of (the group's cost minus the session's cost) times
    the group's weight, the cost of a group being its retained cost plus
    the costs of its member sessions; for a session that is not in the
    table it is 0. *)
Theorem extra_cost_spec (h : Heap) (m : SessionManager.t) (session : nat) :
  (∀ groups, SessionManager.sessions m !! session = Some groups →
     (SessionManager.extra_cost h m session == spec_extra_cost h session groups)%Q)
  ∧ (SessionManager.sessions m !! session = None →
     SessionManager.extra_cost h m session = 0%Q).
Proof.
  unfold SessionManager.extra_cost. split.
  - intros groups ->. unfold spec_extra_cost.
    rewrite (fold_left_Qsum
               (λ g, (SessionGroup.cost (session_cost h) (group_at h g)
                      - session_cost h session) * SessionGroup.weight (group_at h g))%Q).
    rewrite Qplus_0_l. apply Qsum_map_ext. intros g.
    by rewrite group_cost_spec.
  - by intros ->.
Qed.

Lemma extra_cost_spec_witness :
  (SessionManager.extra_cost two_sessions two_sessions_manager 1 == 0.24)%Q
  ∧ SessionManager.extra_cost two_sessions two_sessions_manager 3 = 0%Q.
Proof.
  destruct (extra_cost_spec two_sessions two_sessions_manager 1) as [H1 _].
  destruct (extra_cost_spec two_sessions two_sessions_manager 3) as [_ H3].
  split.
  - rewrite (H1 [0%nat; 1%nat] eq_refl). by vm_compute.
  - apply H3. reflexivity.
Defined.

(** ** Protocol tuples *)

Lemma tuple_compare_refl a : util.tuple_compare a a = Eq.
Proof. induction a as [|x a IH]; simpl; [done|]. by rewrite Z.compare_refl. Qed.

Lemma tuple_compare_Eq a b : util.tuple_compare a b = Eq → a = b.
Proof.
  revert b. induction a as [|x a IH]; intros [|y b]; simpl; try done.
  destruct (Z.compare_spec x y); try done. intros ?%IH. congruence.
Qed.

Lemma tuple_compare_antisym a b :
  util.tuple_compare b a = CompOpp (util.tuple_compare a b).
Proof.
  revert b. induction a as [|x a IH]; intros [|y b]; simpl; try done.
  rewrite (Z.compare_antisym x y). destruct (x ?= y); simpl; [apply IH|done|done].
Qed.

Lemma tuple_compare_Lt_trans a b c :
  util.tuple_compare a b = Lt → util.tuple_compare b c = Lt → util.tuple_compare a c = Lt.
Proof.
  revert b c. induction a as [|x a IH]; intros [|y b] [|z c]; simpl; try done.
  destruct (Z.compare_spec x y), (Z.compare_spec y z), (Z.compare_spec x z);
    try done; try lia; subst; eauto.
Qed.

Lemma tuple_le_refl a : util.tuple_le a a = true.
Proof. unfold util.tuple_le. by rewrite tuple_compare_refl. Qed.

Lemma tuple_le_trans a b c :
  util.tuple_le a b = true → util.tuple_le b c = true → util.tuple_le a c = true.
Proof.
  unfold util.tuple_le.
  destruct (util.tuple_compare a b) eqn:Hab; [|idtac|done].
  - apply tuple_compare_Eq in Hab as ->. done.
  - intros _. destruct (util.tuple_compare b c) eqn:Hbc; [| |done].
    + apply tuple_compare_Eq in Hbc as ->. by rewrite Hab.
    + by rewrite (tuple_compare_Lt_trans a b c).
Qed.

Lemma tuple_le_antisym a b :
  util.tuple_le a b = true → util.tuple_le b a = true → a = b.
Proof.
  unfold util.tuple_le. rewrite (tuple_compare_antisym a b).
  destruct (util.tuple_compare a b) eqn:Hab; simpl; try done.
  intros _ _. by apply tuple_compare_Eq.
Qed.

Lemma tuple_lt_not_le a b : util.tuple_lt a b = negb (util.tuple_le b a).
Proof.
  unfold util.tuple_lt, util.tuple_le. rewrite (tuple_compare_antisym a b).
  by destruct (util.tuple_compare a b).
Qed.

Lemma tuple_le_total a b : util.tuple_le a b = true ∨ util.tuple_le b a = true.
Proof.
  unfold util.tuple_le. rewrite (tuple_compare_antisym a b).
  destruct (util.tuple_compare a b); simpl; auto.
Qed.

Lemma tuple_min_glb a b q :
  util.tuple_le q (util.tuple_min a b) = true
  ↔ util.tuple_le q a = true ∧ util.tuple_le q b = true.
Proof.
  unfold util.tuple_min. rewrite tuple_lt_not_le.
  destruct (util.tuple_le a b) eqn:Hab; simpl.
  - split; [|by intros [? _]]. intros Hq. split; [done|by eapply tuple_le_trans].
  - destruct (tuple_le_total a b) as [?|Hba]; [congruence|].
    split; [|by intros [_ ?]]. intros Hq. split; [by eapply tuple_le_trans|done].
Qed.

Lemma tuple_max_lub a b q :
  util.tuple_le (util.tuple_max a b) q = true
  ↔ util.tuple_le a q = true ∧ util.tuple_le b q = true.
Proof.
  unfold util.tuple_max. rewrite tuple_lt_not_le.
  destruct (util.tuple_le b a) eqn:Hba; simpl.
  - split; [|by intros [? _]]. intros Hq. split; [done|by eapply tuple_le_trans].
  - destruct (tuple_le_total a b) as [Hab|?]; [|congruence].
    split; [|by intros [_ ?]]. intros Hq. split; [by eapply tuple_le_trans|done].
Qed.

Lemma common_spec client_req q :
  common client_req q
  ↔ util.tuple_le (util.tuple_max (client_min client_req) ElectrumX.PROTOCOL_MIN) q = true
    ∧ util.tuple_le q (util.tuple_min (client_max client_req) ElectrumX.PROTOCOL_MAX) = true.
Proof.
  unfold common, in_range. rewrite tuple_max_lub, tuple_min_glb. tauto.
Qed.

(** The model of [util.protocol_version] yields the highest common
    tuple, and none exactly when the ranges share no tuple. *)
Lemma protocol_version_Some client_req p :
  fst (util.protocol_version client_req ElectrumX.PROTOCOL_MIN ElectrumX.PROTOCOL_MAX) = Some p
  ↔ highest_common client_req p.
Proof.
  unfold util.protocol_version, highest_common. simpl. rewrite tuple_lt_not_le.
  set (hi := util.tuple_min _ _). set (lo := util.tuple_max _ _).
  split.
  - destruct (util.tuple_le lo hi) eqn:Hle; simpl; [|done]. intros [= <-]. split.
    + apply common_spec. split; [done|apply tuple_le_refl].
    + intros q [_ Hq]%common_spec. done.
  - intros [[Hlo Hhi]%common_spec Hmax].
    assert (Hle : util.tuple_le lo hi = true) by (by eapply tuple_le_trans).
    rewrite Hle. simpl. f_equal. apply tuple_le_antisym; [|done].
    apply Hmax. apply common_spec. split; [done|apply tuple_le_refl].
Qed.

Lemma protocol_version_None client_req :
  fst (util.protocol_version client_req ElectrumX.PROTOCOL_MIN ElectrumX.PROTOCOL_MAX) = None
  ↔ ∀ q, ¬ common client_req q.
Proof.
  split.
  - intros Hn q Hq.
    revert Hn. unfold util.protocol_version. simpl. rewrite tuple_lt_not_le.
    apply common_spec in Hq as [Hlo Hhi].
    by rewrite (tuple_le_trans _ _ _ Hlo Hhi).
  - intros Hno.
    destruct (fst (util.protocol_version client_req ElectrumX.PROTOCOL_MIN
                     ElectrumX.PROTOCOL_MAX)) as [p|] eqn:Hp; [|done].
    apply protocol_version_Some in Hp as [Hp _]. by apply Hno in Hp.
Qed.

(** ** Protocol negotiation *)

Lemma server_version_seen lib env client_name client_req s :
  ElectrumX.sv_seen s = true →
  ElectrumX.server_version lib env client_name client_req s
  = (Raise already_sent, snd (ElectrumX.bump_cost 0.5%Q s)).
Proof.
  intros Hs. unfold ElectrumX.server_version, mbind, M_bind, ElectrumX.bump_cost, modify, gets.
  cbn. by rewrite Hs.
Qed.

#[local] Opaque ElectrumX.handlers ElectrumX.PROTOCOL_BAD.

Lemma server_version_first lib env client_name client_req s :
  ElectrumX.sv_seen s = false →
  ElectrumX.server_version lib env client_name client_req s
  = if dropped env client_name then (Raise (unsupported_client client_name), marked s)
    else
      match fst (util_protocol_version lib client_req
                   ElectrumX.PROTOCOL_MIN ElectrumX.PROTOCOL_MAX) with
      | Some p =>
          if bool_decide (p ∈ ElectrumX.PROTOCOL_BAD)
          then (Raise (unsupported_version client_req), named client_name (marked s))
          else (Return (electrumx_version lib, util_version_string lib p),
                ElectrumX.set_request_handlers_attr (list_to_map ElectrumX.handlers)
                  (ElectrumX.set_protocol_tuple p (named client_name (marked s))))
      | None => (Raise (unsupported_version client_req), named client_name (marked s))
      end.
Proof.
  intros Hs.
  unfold ElectrumX.server_version, mbind, M_bind, ElectrumX.bump_cost, modify, gets.
  cbn. rewrite Hs. unfold dropped, marked, named, ElectrumX.bump_cost, modify. cbn.
  destruct (util_protocol_version lib client_req ElectrumX.PROTOCOL_MIN ElectrumX.PROTOCOL_MAX)
    as [ptuple cmin] eqn:Hp. cbn.
  assert (Hbad : ∀ p, bool_decide (Some p ∈ Some <$> ElectrumX.PROTOCOL_BAD)
                      = bool_decide (p ∈ ElectrumX.PROTOCOL_BAD)).
  { intros p. apply bool_decide_ext. apply list_elem_of_fmap_inj. apply _. }
  assert (Hnone : bool_decide (@None (list Z) ∈ Some <$> ElectrumX.PROTOCOL_BAD) = false).
  { apply bool_decide_eq_false. intros (x & [=] & _)%list_elem_of_fmap. }
  destruct client_name as [|c name].
  - destruct ptuple as [p|]; [rewrite Hbad|rewrite Hnone]; [|done].
    by destruct (bool_decide (p ∈ ElectrumX.PROTOCOL_BAD)).
  - destruct (drop_client env) as [f|].
    + destruct (f (String c name)); [done|]. cbn.
      destruct ptuple as [p|]; [rewrite Hbad|rewrite Hnone]; [|done].
      by destruct (bool_decide (p ∈ ElectrumX.PROTOCOL_BAD)).
    + cbn. destruct ptuple as [p|]; [rewrite Hbad|rewrite Hnone]; [|done].
      by destruct (bool_decide (p ∈ ElectrumX.PROTOCOL_BAD)).
Qed.

#[local] Transparent ElectrumX.handlers ElectrumX.PROTOCOL_BAD.

Lemma server_version_marks lib env client_name client_req s :
  ElectrumX.sv_seen (snd (ElectrumX.server_version lib env client_name client_req s)) = true.
Proof.
  destruct (ElectrumX.sv_seen s) eqn:Hs.
  - by rewrite server_version_seen.
  - rewrite server_version_first by done.
    destruct (dropped env client_name); [done|].
    destruct (fst _) as [p|]; [|by destruct client_name].
    destruct (bool_decide _); by destruct client_name.
Qed.

(** C9, as amended.  [server.version] is served at most once per
    session: whatever its outcome, a call leaves [sv_seen] set, and every
    later call fails with a [BAD_REQUEST] error.  The first call, unless
    the client name matches [env.drop_client] (the session then replies
    with a [BAD_REQUEST] error and disconnects without negotiating),
    negotiates the highest protocol tuple common to the client's range and
    [[PROTOCOL_MIN, PROTOCOL_MAX]] and installs it with the handler table;
    if that tuple is in [PROTOCOL_BAD] or the ranges share no tuple, the
    session replies with a [BAD_REQUEST] error and disconnects. *)
Theorem server_version_once lib env client_name client_req s :
  util_protocol_version lib = util.protocol_version →
  let r := ElectrumX.server_version lib env client_name client_req s in
  ElectrumX.sv_seen (snd r) = true
  ∧ (∀ client_name' client_req',
       fst (ElectrumX.server_version lib env client_name' client_req' (snd r))
       = Raise already_sent)
  ∧ (ElectrumX.sv_seen s = true → fst r = Raise already_sent)
  ∧ (ElectrumX.sv_seen s = false → dropped env client_name = true →
       fst r = Raise (unsupported_client client_name)
       ∧ ElectrumX.protocol_tuple (snd r) = ElectrumX.protocol_tuple s
       ∧ ElectrumX.request_handlers (snd r) = ElectrumX.request_handlers s)
  ∧ (ElectrumX.sv_seen s = false → dropped env client_name = false →
       (∀ p, highest_common client_req p → p ∉ ElectrumX.PROTOCOL_BAD →
          fst r = Return (electrumx_version lib, util_version_string lib p)
          ∧ ElectrumX.protocol_tuple (snd r) = p
          ∧ ElectrumX.request_handlers (snd r) = list_to_map ElectrumX.handlers)
       ∧ ((∃ p, highest_common client_req p ∧ p ∈ ElectrumX.PROTOCOL_BAD)
          ∨ (∀ q, ¬ common client_req q) →
          fst r = Raise (unsupported_version client_req)
          ∧ ElectrumX.protocol_tuple (snd r) = ElectrumX.protocol_tuple s
          ∧ ElectrumX.request_handlers (snd r) = ElectrumX.request_handlers s)).
Proof.
  intros Hlib r. subst r.
  split; [apply server_version_marks|].
  split; [intros; rewrite server_version_seen; [done|apply server_version_marks]|].
  split; [intros Hs; by rewrite server_version_seen|].
  split.
  - intros Hs Hd. rewrite server_version_first by done. by rewrite Hd.
  - intros Hs Hd. rewrite server_version_first by done. rewrite Hd, Hlib. split.
    + intros p Hp%protocol_version_Some Hbad. rewrite Hp.
      rewrite bool_decide_eq_false_2 by done. done.
    + intros [(p & Hp%protocol_version_Some & Hbad)|Hno%protocol_version_None].
      * rewrite Hp, bool_decide_eq_true_2 by done. by destruct client_name.
      * rewrite Hno. by destruct client_name.
Qed.

Lemma offers_highest_common : highest_common offers_1_4_to_1_10 [1; 10].
Proof. apply protocol_version_Some. reflexivity. Qed.

Lemma server_version_once_witness :
  let r := ElectrumX.server_version model_lib default_env "electrum" offers_1_4_to_1_10
             ElectrumX.init in
  fst r = Return ("ElectrumX", "1.10")
  ∧ ElectrumX.protocol_tuple (snd r) = [1; 10]
  ∧ ∀ client_name' client_req',
      fst (ElectrumX.server_version model_lib default_env client_name' client_req' (snd r))
      = Raise already_sent.
Proof.
  intros r.
  destruct (server_version_once model_lib default_env "electrum" offers_1_4_to_1_10
              ElectrumX.init eq_refl) as (_ & Hlater & _ & _ & Hfirst).
  destruct (Hfirst eq_refl eq_refl) as [Hok _].
  destruct (Hok [1; 10] offers_highest_common) as (H1 & H2 & _).
  { intros [=]%list_elem_of_singleton. }
  split; [exact H1|split; [exact H2|exact Hlater]].
Defined.

(** The first [server.version] of a dropped client is not negotiated,
    although a supported version is common to both sides: the session
    disconnects and keeps the protocol tuple it had. *)
Lemma dropped_client_is_not_negotiated :
  let r := ElectrumX.server_version model_lib drops_bad "badclient" offers_1_4_to_1_10
             ElectrumX.init in
  ElectrumX.sv_seen ElectrumX.init = false
  ∧ highest_common offers_1_4_to_1_10 [1; 10]
  ∧ ([1; 10] ∉ ElectrumX.PROTOCOL_BAD)
  ∧ fst r = Raise (unsupported_client "badclient")
  ∧ ElectrumX.protocol_tuple (snd r) = [1; 4]
  ∧ ¬ (fst r = Return ("ElectrumX", "1.10") ∧ ElectrumX.protocol_tuple (snd r) = [1; 10]).
Proof.
  intros r. split; [reflexivity|]. split; [apply offers_highest_common|].
  split; [by intros [=]%list_elem_of_singleton|].
  split; [reflexivity|]. split; [reflexivity|].
  intros [H _]. discriminate H.
Qed.

(** ** The session registry *)

Lemma update_groups_frame f groups w :
  manager (update_groups f groups w) = manager w
  ∧ next_group (update_groups f groups w) = next_group w
  ∧ session_event (update_groups f groups w) = session_event w
  ∧ session_cost (heap (update_groups f groups w)) = session_cost (heap w).
Proof.
  revert w. induction groups as [|g groups IH]; intros w; [done|].
  unfold update_groups in *. simpl. by destruct (IH (set_heap (set_group g
    (f (group_at (heap w) g)) (heap w)) w)) as (-> & -> & -> & ->).
Qed.

Lemma update_groups_at f groups w g :
  NoDup groups →
  group_at (heap (update_groups f groups w)) g
  = if decide (g ∈ groups) then f (group_at (heap w) g) else group_at (heap w) g.
Proof.
  intros Hnd. revert w. induction Hnd as [|g0 groups Hnotin Hnd IH]; intros w.
  - simpl. by destruct (decide (g ∈ [])) as [Hin|]; [inversion Hin|].
  - unfold update_groups in *. simpl. rewrite IH. simpl.
    destruct (decide (g = g0)) as [->|Hne].
    + destruct (decide (g0 ∈ groups)); [done|].
      destruct (decide (g0 ∈ g0 :: groups)) as [|Hn]; [done|].
      exfalso. apply Hn. left.
    + destruct (decide (g ∈ groups)) as [Hin|Hnin].
      * destruct (decide (g ∈ g0 :: groups)) as [|Hn]; [done|].
        exfalso. apply Hn. by right.
      * destruct (decide (g ∈ g0 :: groups)) as [Hin|]; [|done].
        apply elem_of_cons in Hin as [?|?]; done.
Qed.

(** The decimal form of an integer, a hexadecimal digit and
    [unknown_addr] do not start with the letter t. *)
Lemma format_d_head n : ¬ starts_with_t (format_d n) ∧ format_d n ≠ "".
Proof.
  unfold format_d, starts_with_t.
  destruct (Z.to_int n) as [d|d]; destruct d; simpl; split; try discriminate;
    intros [rest H]; discriminate H.
Qed.

Lemma hex_digit_not_t n : (n < 16)%N → hex_digit n ≠ "t"%char.
Proof.
  intros Hn Heq. unfold hex_digit in Heq.
  apply (f_equal N_of_ascii) in Heq.
  destruct (n <? 10)%N; rewrite N_ascii_embedding in Heq by lia; simpl in Heq; lia.
Qed.

Lemma append_head (a b : string) : a ≠ "" → ¬ starts_with_t a → ¬ starts_with_t (a ++ b).
Proof.
  intros Hne Ht [rest H]. destruct a as [|c a]; [done|].
  simpl in H. injection H as -> _. apply Ht. by eexists.
Qed.

Lemma join_with_head sep part parts :
  part ≠ "" → ¬ starts_with_t part → ¬ starts_with_t (join_with sep (part :: parts)).
Proof.
  intros Hne Ht. simpl. destruct parts; [done|]. by apply append_head.
Qed.

Lemma ip_name_not_timeslice is_private m attrs name :
  _ip_addr_group_name is_private attrs = Some name → name ≠ _timeslice_name m attrs.
Proof.
  intros Hname Heq.
  assert (Ht : starts_with_t name) by (subst name; by eexists).
  revert Hname. unfold _ip_addr_group_name.
  destruct (attr_host attrs) as [a b c d|hextets|].
  - destruct (is_private _); [done|]. intros [= <-].
    apply (join_with_head "." (format_d (Z.of_N a))
             [format_d (Z.of_N b); format_d (Z.of_N c)]); [apply format_d_head..|exact Ht].
  - destruct (is_private _); [done|]. intros [= <-].
    destruct hextets as [|h hextets]; [by destruct Ht as [rest H]|].
    apply (join_with_head ":" (hextet h) (take 2 (map hextet hextets)));
      [done| |exact Ht].
    intros [rest H]. injection H as H _. revert H. apply hex_digit_not_t.
    apply N.mod_lt. lia.
  - intros [= <-]. destruct Ht as [rest H]. discriminate H.
Qed.

(** What [_session_group] does for a name: it answers with the group
    registered under the name afterwards; the agreement of the tables is
    kept; no session list and no group object already reachable changes. *)
Lemma session_group_spec name weight w :
  registry_ok w →
  ∃ g, let w' := snd (_session_group (Some name) weight w) in
    fst (_session_group (Some name) weight w) = Some g
    ∧ registry_ok w'
    ∧ SessionManager.session_groups (manager w') !! name = Some g
    ∧ SessionManager.sessions (manager w') = SessionManager.sessions (manager w)
    ∧ session_event w' = session_event w
    ∧ session_cost (heap w') = session_cost (heap w)
    ∧ (∀ name' g', SessionManager.session_groups (manager w) !! name' = Some g' →
         SessionManager.session_groups (manager w') !! name' = Some g'
         ∧ group_at (heap w') g' = group_at (heap w) g')
    ∧ (SessionManager.session_groups (manager w) !! name = None →
         group_at (heap w') g = SessionGroup.mk name weight ∅ 0%Q
         ∧ SessionManager.session_groups (manager w')
           = <[name := g]> (SessionManager.session_groups (manager w)))
    ∧ (∀ name', name' ≠ name →
         SessionManager.session_groups (manager w') !! name'
         = SessionManager.session_groups (manager w) !! name').
Proof.
  intros Hok. unfold _session_group.
  destruct (SessionManager.session_groups (manager w) !! name) as [g|] eqn:Hlook.
  - exists g. simpl. by split_and!.
  - exists (next_group w). cbn.
    assert (Hold : ∀ name' g', SessionManager.session_groups (manager w) !! name' = Some g' →
                     name' ≠ name ∧ g' ≠ next_group w).
    { intros name' g' Hl. split; [congruence|].
      apply (ok_named w Hok) in Hl as [_ Hlt]. lia. }
    split_and!; try done.
    + constructor; cbn.
      * intros name' g'. rewrite lookup_insert. case_decide as Hn.
        -- intros [= <-]. subst name'.
           destruct (decide (next_group w = next_group w)); [|done]. split; [done|lia].
        -- intros Hl. destruct (Hold _ _ Hl) as [_ Hg].
           destruct (decide (g' = next_group w)); [done|].
           apply (ok_named _ Hok) in Hl as [Hnm Hlt]. split; [done|lia].
      * intros s groups g Hs Hin.
        destruct (ok_member _ Hok s groups g Hs Hin) as [Hmem Hreg].
        destruct (Hold _ _ Hreg) as [Hnn Hg].
        destruct (decide (g = next_group w)); [done|]. split; [done|].
        by rewrite lookup_insert_ne.
      * intros s groups Hs. by apply (ok_nodup _ Hok s).
      * intros name' g' s. rewrite lookup_insert. case_decide as Hn.
        -- intros [= <-]. destruct (decide (next_group w = next_group w)); [|done].
           cbn. set_solver.
        -- intros Hl. destruct (Hold _ _ Hl) as [_ Hg].
           destruct (decide (g' = next_group w)); [done|].
           by apply (ok_listed _ Hok name').
    + by rewrite lookup_insert_eq.
    + intros name' g' Hl. destruct (Hold _ _ Hl) as [Hn Hg]. split.
      * by rewrite lookup_insert_ne.
      * cbn. by destruct (decide (g' = next_group w)).
    + intros _. split; [|done]. cbn. by destruct (decide (next_group w = next_group w)).
    + intros name' Hne. by rewrite lookup_insert_ne.
Qed.

Lemma registry_ok_event h m n e e' :
  registry_ok (mkRegistry h m n e) → registry_ok (mkRegistry h m n e').
Proof. intros [H1 H2 H3 H4]. by constructor. Qed.

Lemma add_session_unfold is_private session attrs w :
  add_session is_private session attrs w
  = let w0 := mkRegistry (heap w) (manager w) (next_group w) true in
    let r1 := _session_group (Some (_timeslice_name (manager w) attrs)) 0.03%Q w0 in
    let r2 := _session_group (_ip_addr_group_name is_private attrs) 1.0%Q (snd r1) in
    let groups := omap id [fst r1; fst r2] in
    update_groups (group_add session) groups
      (set_manager
         (SessionManager.set_sessions
            (<[session := groups]> (SessionManager.sessions (manager (snd r2))))
            (manager (snd r2)))
         (snd r2)).
Proof.
  unfold add_session. cbn zeta. cbn [manager].
  destruct (_session_group (Some _) _ _) as [g1 w1].
  cbn [fst snd]. by destruct (_session_group (_ip_addr_group_name _ _) _ w1) as [g2 w2].
Qed.

(** Listing a new session under distinct registered groups and adding it
    to each of them keeps the tables and the groups in agreement. *)
Lemma register_step session groups w :
  registry_ok w →
  SessionManager.sessions (manager w) !! session = None →
  NoDup groups →
  (∀ g, g ∈ groups →
     SessionManager.session_groups (manager w)
       !! SessionGroup.name (group_at (heap w) g) = Some g) →
  registry_ok
    (update_groups (group_add session) groups
       (set_manager
          (SessionManager.set_sessions
             (<[session := groups]> (SessionManager.sessions (manager w))) (manager w)) w)).
Proof.
  intros Hok Hfresh Hnd Hreg.
  set (w1 := set_manager _ w).
  destruct (update_groups_frame (group_add session) groups w1) as (Hm & Hn & _ & _).
  assert (Hat : ∀ g, group_at (heap (update_groups (group_add session) groups w1)) g
                     = if decide (g ∈ groups) then group_add session (group_at (heap w) g)
                       else group_at (heap w) g).
  { intros g. by rewrite update_groups_at. }
  assert (Hname : ∀ g, SessionGroup.name
                         (group_at (heap (update_groups (group_add session) groups w1)) g)
                       = SessionGroup.name (group_at (heap w) g)).
  { intros g. rewrite Hat. by destruct (decide (g ∈ groups)). }
  assert (Hsub : ∀ g s, s ∈ SessionGroup.sessions (group_at (heap w) g) →
                   s ∈ SessionGroup.sessions
                         (group_at (heap (update_groups (group_add session) groups w1)) g)).
  { intros g s Hs. rewrite Hat. destruct (decide (g ∈ groups)); [|done]. cbn. set_solver. }
  constructor; rewrite ?Hm, ?Hn; cbn.
  - intros name g Hl. rewrite Hname. by apply (ok_named _ Hok).
  - intros s groups' g. rewrite Hname. rewrite lookup_insert. case_decide as Hs.
    + intros [= <-] Hin. subst s. split; [|by apply Hreg].
      rewrite Hat. destruct (decide (g ∈ groups)); [|done]. cbn. set_solver.
    + intros Hl Hin. destruct (ok_member _ Hok s groups' g Hl Hin) as [Hmem Hr].
      split; [by apply Hsub|done].
  - intros s groups'. rewrite lookup_insert. case_decide.
    + by intros [= <-].
    + by apply (ok_nodup _ Hok).
  - intros name g s Hl. rewrite Hat.
    assert (Hold : s ∈ SessionGroup.sessions (group_at (heap w) g) →
                   ∃ groups', <[session:=groups]> (SessionManager.sessions (manager w)) !! s
                              = Some groups' ∧ g ∈ groups').
    { intros Hs. destruct (ok_listed _ Hok name g s Hl Hs) as (groups' & Hl' & Hin).
      exists groups'. split; [|done]. rewrite lookup_insert_ne; [done|]. congruence. }
    destruct (decide (g ∈ groups)) as [Hin|Hnin]; [|done].
    cbn. intros [->%elem_of_singleton|Hs]%elem_of_union; [|by apply Hold].
    exists groups. by rewrite lookup_insert_eq.
Qed.

(** The whole effect of [add_session] on a registry in agreement. *)
Lemma add_session_detail is_private session attrs w :
  registry_ok w →
  SessionManager.sessions (manager w) !! session = None →
  let w' := add_session is_private session attrs w in
  registry_ok w'
  ∧ session_event w' = true
  ∧ session_cost (heap w') = session_cost (heap w)
  ∧ (∀ s, s ≠ session →
       SessionManager.sessions (manager w') !! s = SessionManager.sessions (manager w) !! s)
  ∧ ∃ groups,
      SessionManager.sessions (manager w') !! session = Some groups
      ∧ (∀ g, g ∈ groups → session ∈ SessionGroup.sessions (group_at (heap w') g))
      ∧ (∃ g_t, SessionManager.session_groups (manager w')
                  !! _timeslice_name (manager w) attrs = Some g_t
                ∧ match _ip_addr_group_name is_private attrs with
                  | Some name =>
                      ∃ g_ip, SessionManager.session_groups (manager w') !! name = Some g_ip
                              ∧ groups = [g_t; g_ip]
                  | None => groups = [g_t]
                  end)
      ∧ (∀ name g, SessionManager.session_groups (manager w) !! name = Some g →
           SessionManager.session_groups (manager w') !! name = Some g
           ∧ group_at (heap w') g
             = if decide (g ∈ groups) then group_add session (group_at (heap w) g)
               else group_at (heap w) g)
      ∧ (∀ g, g ∈ groups →
           (∀ name, SessionManager.session_groups (manager w) !! name ≠ Some g) →
           SessionGroup.sessions (group_at (heap w') g) = {[session]} ∪ ∅
           ∧ SessionGroup.retained_cost (group_at (heap w') g) = 0%Q).
Proof.
  intros Hok Hfresh w'. subst w'. rewrite add_session_unfold. cbn zeta.
  set (w0 := mkRegistry (heap w) (manager w) (next_group w) true).
  assert (Hok0 : registry_ok w0) by (destruct w; by eapply registry_ok_event).
  destruct (session_group_spec (_timeslice_name (manager w) attrs) 0.03%Q w0 Hok0)
    as (g1 & Hg1 & Hok1 & Hl1 & Hs1 & He1 & Hc1 & Hkeep1 & Hnew1 & Hoth1).
  set (r1 := _session_group (Some _) _ w0) in *. cbn zeta in *.
  set (w1 := snd r1) in *. rewrite Hg1.
  assert (Hgoal : ∀ groups w2,
    registry_ok w2 → NoDup groups →
    SessionManager.sessions (manager w2) = SessionManager.sessions (manager w) →
    session_event w2 = true →
    (∀ g, g ∈ groups →
       SessionManager.session_groups (manager w2)
         !! SessionGroup.name (group_at (heap w2) g) = Some g) →
    let w' := update_groups (group_add session) groups
                (set_manager
                   (SessionManager.set_sessions
                      (<[session := groups]> (SessionManager.sessions (manager w2)))
                      (manager w2)) w2) in
    registry_ok w'
    ∧ session_event w' = true
    ∧ (∀ s, s ≠ session →
         SessionManager.sessions (manager w') !! s
         = SessionManager.sessions (manager w) !! s)
    ∧ SessionManager.sessions (manager w') !! session = Some groups
    ∧ (∀ g, g ∈ groups → session ∈ SessionGroup.sessions (group_at (heap w') g))
    ∧ SessionManager.session_groups (manager w')
      = SessionManager.session_groups (manager w2)
    ∧ session_cost (heap w') = session_cost (heap w2)
    ∧ (∀ g, group_at (heap w') g
            = if decide (g ∈ groups) then group_add session (group_at (heap w2) g)
              else group_at (heap w2) g)).
  { intros groups w2 Hok2 Hnd Hs2 He2 Hreg w'.
    assert (Hok' : registry_ok w').
    { apply register_step; try done. by rewrite Hs2. }
    destruct (update_groups_frame (group_add session) groups
                (set_manager
                   (SessionManager.set_sessions
                      (<[session := groups]> (SessionManager.sessions (manager w2)))
                      (manager w2)) w2)) as (Hm & _ & He & Hc).
    fold w' in Hm, He, Hc.
    assert (Hsess : SessionManager.sessions (manager w')
                    = <[session := groups]> (SessionManager.sessions (manager w))).
    { rewrite Hm. cbn. by rewrite Hs2. }
    split_and!; try done.
    - by rewrite He.
    - intros s Hne. by rewrite Hsess, lookup_insert_ne.
    - by rewrite Hsess, lookup_insert_eq.
    - intros g Hin. apply (ok_member _ Hok' session groups g); [|done].
      by rewrite Hsess, lookup_insert_eq.
    - by rewrite Hm.
    - intros g. unfold w'. by rewrite update_groups_at. }
  destruct (_ip_addr_group_name is_private attrs) as [name2|] eqn:Hip.
  - destruct (session_group_spec name2 1.0%Q w1 Hok1)
      as (g2 & Hg2 & Hok2 & Hl2 & Hs2 & He2 & Hc2 & Hkeep & Hnew2 & Hoth2).
    set (r2 := _session_group (Some name2) _ w1) in *. cbn zeta in *.
    set (w2 := snd r2) in *. rewrite Hg2. cbn [omap list_omap id].
    destruct (Hkeep _ _ Hl1) as [Hl1' Hat1].
    assert (Hne : g1 ≠ g2).
    { intros ->. apply (ok_named _ Hok2) in Hl1' as [Hn1 _].
      apply (ok_named _ Hok2) in Hl2 as [Hn2 _].
      apply (ip_name_not_timeslice is_private (manager w) attrs name2 Hip). congruence. }
    destruct (Hgoal [g1; g2] w2) as (H1 & H2 & H3 & H4 & H5 & H6 & H7 & H8); try done.
    + apply NoDup_cons. split; [by intros ->%list_elem_of_singleton|].
      apply NoDup_singleton.
    + by rewrite Hs2, Hs1.
    + by rewrite He2, He1.
    + intros g [->|[->|[]%elem_of_nil]%elem_of_cons]%elem_of_cons.
      * by destruct (ok_named _ Hok2 _ _ Hl1') as [-> _].
      * by destruct (ok_named _ Hok2 _ _ Hl2) as [-> _].
    + split; [done|]. split; [done|]. split; [by rewrite H7, Hc2, Hc1|]. split; [done|].
      exists [g1; g2]. split_and!; try done.
      * exists g1. rewrite H6. split; [done|]. by exists g2.
      * intros name g Hl. destruct (Hkeep1 _ _ Hl) as [Hla Hata].
        destruct (Hkeep _ _ Hla) as [Hlb Hatb].
        split; [by rewrite H6|]. rewrite H8, Hatb, Hata. done.
      * intros g Hin Hnew. rewrite H8. destruct (decide (g ∈ [g1; g2])); [|done].
        apply elem_of_cons in Hin as [->|[->|[]%elem_of_nil]%elem_of_cons].
        -- assert (Hnone : SessionManager.session_groups (manager w0)
                           !! _timeslice_name (manager w) attrs = None).
           { destruct (SessionManager.session_groups (manager w0) !! _) as [g|] eqn:Hl0;
               [|done].
             destruct (Hkeep1 _ _ Hl0) as [Hl0' _]. exfalso.
             apply (Hnew (_timeslice_name (manager w) attrs)). cbn in Hl0. congruence. }
           destruct (Hnew1 Hnone) as [Hat _]. rewrite Hat1, Hat. done.
        -- assert (Hnone : SessionManager.session_groups (manager w1) !! name2 = None).
           { destruct (SessionManager.session_groups (manager w1) !! name2) as [g|] eqn:Hl0;
               [|done].
             destruct (Hkeep _ _ Hl0) as [Hl0' _].
             assert (g = g2) by congruence. subst g.
             rewrite Hoth1 in Hl0
               by (by apply (ip_name_not_timeslice is_private (manager w) attrs name2)).
             exfalso. by apply (Hnew name2). }
           destruct (Hnew2 Hnone) as [Hat _]. rewrite Hat. done.
  - cbn [_session_group fst snd omap list_omap id].
    destruct (Hgoal [g1] w1) as (H1 & H2 & H3 & H4 & H5 & H6 & H7 & H8); try done.
    + apply NoDup_singleton.
    + intros g ->%list_elem_of_singleton.
      by destruct (ok_named _ Hok1 _ _ Hl1) as [-> _].
    + split; [done|]. split; [done|]. split; [by rewrite H7, Hc1|]. split; [done|].
      exists [g1]. split_and!; try done.
      * exists g1. by rewrite H6.
      * intros name g Hl. destruct (Hkeep1 _ _ Hl) as [Hla Hata].
        split; [by rewrite H6|]. rewrite H8, Hata. done.
      * intros g Hin Hnew. rewrite H8. destruct (decide (g ∈ [g1])); [|done].
        apply list_elem_of_singleton in Hin as ->.
        assert (Hnone : SessionManager.session_groups (manager w0)
                        !! _timeslice_name (manager w) attrs = None).
        { destruct (SessionManager.session_groups (manager w0) !! _) as [g|] eqn:Hl0;
            [|done].
          destruct (Hkeep1 _ _ Hl0) as [Hl0' _]. exfalso.
          apply (Hnew (_timeslice_name (manager w) attrs)). cbn in Hl0. congruence. }
        destruct (Hnew1 Hnone) as [Hat _]. rewrite Hat. done.
Qed.

(** X1.  [add_session] of a session that is not yet in the table, in a
    registry whose tables and groups agree: they still agree afterwards;
    [session_event] is set; the session is listed under its time-slice
    group and, unless its address is private, under its address group
    (one or two groups), each registered under its name and holding the
    session; the list of every other session is unchanged. *)
Theorem add_session_registers is_private session attrs w :
  registry_ok w →
  SessionManager.sessions (manager w) !! session = None →
  let w' := add_session is_private session attrs w in
  registry_ok w'
  ∧ session_event w' = true
  ∧ (∀ s, s ≠ session →
       SessionManager.sessions (manager w') !! s = SessionManager.sessions (manager w) !! s)
  ∧ ∃ groups,
      SessionManager.sessions (manager w') !! session = Some groups
      ∧ (∀ g, g ∈ groups → session ∈ SessionGroup.sessions (group_at (heap w') g))
      ∧ (∃ g, SessionManager.session_groups (manager w')
                !! _timeslice_name (manager w) attrs = Some g ∧ g ∈ groups)
      ∧ match _ip_addr_group_name is_private attrs with
        | Some name =>
            (∃ g, SessionManager.session_groups (manager w') !! name = Some g ∧ g ∈ groups)
            ∧ length groups = 2%nat
        | None => length groups = 1%nat
        end.
Proof.
  intros Hok Hfresh w'.
  destruct (add_session_detail is_private session attrs w Hok Hfresh)
    as (H1 & H2 & _ & H3 & groups & H4 & H5 & (g_t & H6 & H7) & _).
  split_and!; try done. exists groups. split_and!; try done.
  - exists g_t. split; [done|].
    destruct (_ip_addr_group_name is_private attrs); [destruct H7 as (? & _ & ->)|subst]; left.
  - destruct (_ip_addr_group_name is_private attrs) as [name|]; [|by subst].
    destruct H7 as (g_ip & H7 & ->). split; [|done]. exists g_ip. split; [done|].
    right. left.
Qed.

Lemma leave_groups_spec session groups w :
  NoDup groups →
  (∀ g, g ∈ groups → session ∈ SessionGroup.sessions (group_at (heap w) g)) →
  let r := leave_groups session groups w in
  fst r = Completed
  ∧ manager (snd r) = manager w
  ∧ next_group (snd r) = next_group w
  ∧ session_event (snd r) = session_event w
  ∧ session_cost (heap (snd r)) = session_cost (heap w)
  ∧ ∀ g, group_at (heap (snd r)) g
         = if decide (g ∈ groups)
           then group_leave (session_cost (heap w) session) session (group_at (heap w) g)
           else group_at (heap w) g.
Proof.
  intros Hnd. revert w. induction Hnd as [|g0 groups Hnotin Hnd IH]; intros w Hmem.
  - cbn. by split_and!.
  - cbn [leave_groups]. cbn zeta.
    destruct (decide (session ∈ SessionGroup.sessions _)) as [Hin|Hn].
    2:{ exfalso. apply Hn. cbn. apply Hmem. left. }
    set (w1 := set_heap _ (set_heap _ w)).
    assert (Hat1 : ∀ g, group_at (heap w1) g
                        = if decide (g = g0)
                          then group_leave (session_cost (heap w) session) session
                                 (group_at (heap w) g0)
                          else group_at (heap w) g).
    { intros g. cbn. by destruct (decide (g = g0)). }
    destruct (IH w1) as (H1 & H2 & H3 & H4 & H5 & H6).
    { intros g Hg. rewrite Hat1. destruct (decide (g = g0)) as [->|]; [done|].
      apply Hmem. by right. }
    cbn zeta. split_and!; try done. intros g. rewrite H6, Hat1.
    destruct (decide (g = g0)) as [->|Hne].
    + destruct (decide (g0 ∈ groups)); [done|].
      destruct (decide (g0 ∈ g0 :: groups)) as [|Hn]; [done|]. exfalso. apply Hn. left.
    + destruct (decide (g ∈ groups)) as [Hg|Hg].
      * destruct (decide (g ∈ g0 :: groups)) as [|Hn]; [done|]. exfalso. apply Hn. by right.
      * destruct (decide (g ∈ g0 :: groups)) as [Hin'|]; [|done].
        apply elem_of_cons in Hin' as [?|?]; done.
Qed.

(** The whole effect of [remove_session] on a registry in agreement. *)
Lemma remove_session_detail session groups w :
  registry_ok w →
  SessionManager.sessions (manager w) !! session = Some groups →
  let r := remove_session session w in
  fst r = Completed
  ∧ registry_ok (snd r)
  ∧ session_event (snd r) = true
  ∧ session_cost (heap (snd r)) = session_cost (heap w)
  ∧ SessionManager.sessions (manager (snd r))
    = delete session (SessionManager.sessions (manager w))
  ∧ SessionManager.session_groups (manager (snd r))
    = SessionManager.session_groups (manager w)
  ∧ ∀ g, group_at (heap (snd r)) g
         = if decide (g ∈ groups)
           then group_leave (session_cost (heap w) session) session (group_at (heap w) g)
           else group_at (heap w) g.
Proof.
  intros Hok Hl r. subst r. unfold remove_session. cbn [manager]. rewrite Hl.
  set (w1 := set_manager _ _).
  destruct (leave_groups_spec session groups w1) as (H1 & H2 & H3 & H4 & H5 & H6).
  { by apply (ok_nodup _ Hok session). }
  { intros g Hg. by apply (ok_member _ Hok session groups g). }
  cbn zeta in *.
  assert (Hname : ∀ g, SessionGroup.name (group_at (heap (leave_groups session groups w1).2) g)
                       = SessionGroup.name (group_at (heap w) g)).
  { intros g. rewrite H6. by destruct (decide (g ∈ groups)). }
  split_and!; try done; [|by rewrite H2..].
  constructor; rewrite ?H2, ?H3; cbn.
  - intros name g Hg. rewrite Hname. by apply (ok_named _ Hok).
  - intros s groups' g Hs Hin. rewrite Hname.
    apply lookup_delete_Some in Hs as [Hne Hs].
    destruct (ok_member _ Hok s groups' g Hs Hin) as [Hmem Hreg]. split; [|done].
    rewrite H6. destruct (decide (g ∈ groups)); [|done]. cbn. set_solver.
  - intros s groups' Hs. apply lookup_delete_Some in Hs as [Hne Hs].
    by apply (ok_nodup _ Hok s).
  - intros name g s Hg. rewrite H6. intros Hs.
    assert (Hold : s ∈ SessionGroup.sessions (group_at (heap w) g)).
    { destruct (decide (g ∈ groups)); [|done]. cbn in Hs. set_solver. }
    destruct (ok_listed _ Hok name g s Hg Hold) as (groups' & Hl' & Hin).
    exists groups'. split; [|done]. apply lookup_delete_Some. split; [|done].
    intros <-. assert (groups' = groups) by congruence. subst groups'.
    destruct (decide (g ∈ groups)); [|done]. cbn in Hs. set_solver.
Qed.

(** X2.  In a registry whose tables and groups agree, [remove_session]
    completes exactly when the session is in the table and raises
    [KeyError] otherwise; [session_event] is set either way.  When it
    completes, the tables and groups still agree, the session is in no
    registered group and no longer in the table, and each of its groups
    has its retained cost raised by the cost of the session, the other
    groups being untouched. *)
Theorem remove_session_leaves session w :
  registry_ok w →
  let r := remove_session session w in
  session_event (snd r) = true
  ∧ (fst r = Completed ↔ is_Some (SessionManager.sessions (manager w) !! session))
  ∧ (SessionManager.sessions (manager w) !! session = None →
       fst r = Raised_KeyError ∧ heap (snd r) = heap w ∧ manager (snd r) = manager w)
  ∧ ∀ groups, SessionManager.sessions (manager w) !! session = Some groups →
      registry_ok (snd r)
      ∧ SessionManager.sessions (manager (snd r)) !! session = None
      ∧ (∀ s, s ≠ session →
           SessionManager.sessions (manager (snd r)) !! s
           = SessionManager.sessions (manager w) !! s)
      ∧ (∀ name g, SessionManager.session_groups (manager (snd r)) !! name = Some g →
           session ∉ SessionGroup.sessions (group_at (heap (snd r)) g))
      ∧ (∀ g, g ∈ groups →
           SessionGroup.retained_cost (group_at (heap (snd r)) g)
           = (SessionGroup.retained_cost (group_at (heap w) g)
              + session_cost (heap w) session)%Q)
      ∧ (∀ g, g ∉ groups → group_at (heap (snd r)) g = group_at (heap w) g).
Proof.
  intros Hok r.
  destruct (SessionManager.sessions (manager w) !! session) as [groups|] eqn:Hl.
  - destruct (remove_session_detail session groups w Hok Hl)
      as (H1 & H2 & H3 & H4 & H5 & H6 & H7). fold r in H1, H2, H3, H4, H5, H6, H7.
    split_and!; try done.
    intros groups' [= <-]. split_and!; try done.
    + rewrite H5. apply lookup_delete_eq.
    + intros s Hne. rewrite H5. by apply lookup_delete_ne.
    + intros name g Hg Hin.
      destruct (ok_listed _ H2 name g session Hg Hin) as (groups' & Hl' & _).
      rewrite H5, lookup_delete_eq in Hl'. done.
    + intros g Hin. rewrite H7. by destruct (decide (g ∈ groups)).
    + intros g Hin. rewrite H7. by destruct (decide (g ∈ groups)).
  - subst r. unfold remove_session. cbn [manager]. rewrite Hl. cbn.
    by split_and!.
Qed.

Lemma empty_registry_ok : registry_ok empty_registry.
Proof. constructor; cbn; intros *; by rewrite lookup_empty. Qed.

(** A session from 203.0.113.7 that starts 10.5 s after the manager is
    listed under the groups t0 and 203.0.113. *)
Lemma add_session_registers_witness :
  let w' := add_session private_192_168 1 public_session empty_registry in
  registry_ok w'
  ∧ SessionManager.sessions (manager w') !! 1%nat = Some [0%nat; 1%nat]
  ∧ SessionManager.session_groups (manager w') !! "t0" = Some 0%nat
  ∧ SessionManager.session_groups (manager w') !! "203.0.113" = Some 1%nat.
Proof.
  intros w'.
  destruct (add_session_registers private_192_168 1 public_session empty_registry
              empty_registry_ok eq_refl) as (H1 & _).
  split; [exact H1|]. by vm_compute.
Defined.

Lemma remove_session_leaves_witness :
  let w := add_session private_192_168 1 public_session empty_registry in
  let r := remove_session 1 w in
  fst r = Completed
  ∧ SessionManager.sessions (manager (snd r)) !! 1%nat = None
  ∧ fst (remove_session 1 (snd r)) = Raised_KeyError.
Proof.
  intros w r.
  assert (Hok : registry_ok w).
  { by destruct (add_session_detail private_192_168 1 public_session empty_registry
                   empty_registry_ok eq_refl) as (H & _). }
  destruct (remove_session_leaves 1 w Hok) as (_ & Hiff & _ & Hsome).
  destruct (Hsome [0%nat; 1%nat] eq_refl) as (Hok' & Hgone & _).
  split; [apply Hiff; by eexists|]. split; [exact Hgone|].
  destruct (remove_session_leaves 1 (snd (remove_session 1 w)) Hok') as (_ & _ & Hnone & _).
  destruct (Hnone Hgone) as [H _]. exact H.
Defined.

(** X3.  Registering a new session and removing it again, in a registry
    whose tables and groups agree: the removal completes, the session
    table is as it was, and every group registered before keeps its name,
    its weight and its sessions; the group of the session's time slice and
    the group of its address have their retained cost raised by the cost
    of the session, the other groups keep theirs. *)
Theorem add_then_remove_session is_private session attrs w :
  registry_ok w →
  SessionManager.sessions (manager w) !! session = None →
  let r := remove_session session (add_session is_private session attrs w) in
  fst r = Completed
  ∧ registry_ok (snd r)
  ∧ SessionManager.sessions (manager (snd r)) = SessionManager.sessions (manager w)
  ∧ ∀ name g, SessionManager.session_groups (manager w) !! name = Some g →
      SessionManager.session_groups (manager (snd r)) !! name = Some g
      ∧ SessionGroup.name (group_at (heap (snd r)) g) = name
      ∧ SessionGroup.weight (group_at (heap (snd r)) g)
        = SessionGroup.weight (group_at (heap w) g)
      ∧ SessionGroup.sessions (group_at (heap (snd r)) g)
        = SessionGroup.sessions (group_at (heap w) g)
      ∧ SessionGroup.retained_cost (group_at (heap (snd r)) g)
        = if bool_decide (name = _timeslice_name (manager w) attrs
                          ∨ _ip_addr_group_name is_private attrs = Some name)
          then (SessionGroup.retained_cost (group_at (heap w) g)
                + session_cost (heap w) session)%Q
          else SessionGroup.retained_cost (group_at (heap w) g).
Proof.
  intros Hok Hfresh r.
  destruct (add_session_detail is_private session attrs w Hok Hfresh)
    as (Hok1 & _ & Hc1 & Hoth & groups & Hs1 & _ & (g_t & Ht & Hip) & Hold & _).
  set (w1 := add_session is_private session attrs w) in *. cbn zeta in *.
  destruct (remove_session_detail session groups w1 Hok1 Hs1)
    as (H1 & H2 & _ & _ & H5 & H6 & H7). fold r in H1, H2, H5, H6, H7.
  split_and!; try done.
  - rewrite H5. apply map_eq. intros s. destruct (decide (s = session)) as [->|Hne].
    + by rewrite lookup_delete_eq.
    + rewrite lookup_delete_ne by done. by apply Hoth.
  - intros name g Hg. destruct (Hold name g Hg) as [Hg1 Hat1].
    assert (Hnotin : session ∉ SessionGroup.sessions (group_at (heap w) g)).
    { intros Hin. destruct (ok_listed _ Hok name g session Hg Hin) as (? & ? & _).
      congruence. }
    assert (Hin : g ∈ groups ↔ name = _timeslice_name (manager w) attrs
                              ∨ _ip_addr_group_name is_private attrs = Some name).
    { assert (Hinj : ∀ name' g', SessionManager.session_groups (manager w1) !! name' = Some g' →
                       g' = g ↔ name' = name).
      { intros name' g' Hg'. split.
        - intros ->. destruct (ok_named _ Hok1 _ _ Hg') as [<- _].
          by destruct (ok_named _ Hok1 _ _ Hg1) as [<- _].
        - intros ->. congruence. }
      destruct (_ip_addr_group_name is_private attrs) as [name2|].
      - destruct Hip as (g_ip & Hgip & ->). rewrite !elem_of_cons, elem_of_nil.
        pose proof (Hinj _ _ Ht) as Hi1. pose proof (Hinj _ _ Hgip) as Hi2. split.
        + intros [->|[->|[]]]; [left; symmetry; by apply Hi1|right].
          f_equal. by apply Hi2.
        + intros [->|[= ->]]; [left; symmetry; by apply Hi1|].
          right. left. symmetry. by apply Hi2.
      - subst groups. rewrite list_elem_of_singleton.
        pose proof (Hinj _ _ Ht) as Hi1. split.
        + intros ->. left. symmetry. by apply Hi1.
        + intros [->|[=]]. symmetry. by apply Hi1. }
    rewrite H6, H7, Hat1, Hc1. split; [done|].
    destruct (decide (g ∈ groups)) as [Hg'|Hg'].
    + rewrite bool_decide_eq_true_2 by (by apply Hin). cbn.
      destruct (ok_named _ Hok _ _ Hg) as [-> _]. split_and!; try done. set_solver.
    + rewrite bool_decide_eq_false_2 by (by rewrite <- Hin).
      by destruct (ok_named _ Hok _ _ Hg) as [-> _].
Qed.

Lemma add_then_remove_session_witness :
  let w := add_session private_192_168 1 public_session empty_registry in
  let r := remove_session 2 (add_session private_192_168 2 private_session w) in
  fst r = Completed
  ∧ SessionManager.sessions (manager (snd r)) = SessionManager.sessions (manager w)
  ∧ SessionGroup.sessions (group_at (heap (snd r)) 0) = {[1%nat]} ∪ ∅.
Proof.
  intros w r.
  assert (Hok : registry_ok w).
  { by destruct (add_session_detail private_192_168 1 public_session empty_registry
                   empty_registry_ok eq_refl) as (H & _). }
  destruct (add_then_remove_session private_192_168 2 private_session w Hok)
    as (H1 & _ & H3 & H4); [by vm_compute|].
  split; [exact H1|]. split; [exact H3|].
  destruct (H4 "t0" 0%nat) as (_ & _ & _ & H & _); [by vm_compute|].
  etrans; [exact H|]. by vm_compute.
Defined.

Lemma Qsum_nonneg (l : list Q) : Forall (λ x, 0 <= x)%Q l → (0 <= Qsum l)%Q.
Proof.
  induction 1 as [|x l Hx _ IH]; simpl; [apply Qle_refl|].
  rewrite <- (Qplus_0_r 0). by apply Qplus_le_compat.
Qed.

Lemma Qsum_member {A} (f : A → Q) (l : list A) (x : A) :
  (∀ y, 0 <= f y)%Q → x ∈ l → (f x <= Qsum (map f l))%Q.
Proof.
  intros Hf. induction 1 as [x l|x y l _ IH]; simpl.
  - rewrite <- (Qplus_0_r (f x)) at 1. apply Qplus_le_compat; [apply Qle_refl|].
    apply Qsum_nonneg, Forall_forall. intros q [z [-> _]]%list_elem_of_fmap. apply Hf.
  - rewrite <- (Qplus_0_l (f x)). by apply Qplus_le_compat.
Qed.

(** X4.  In a registry whose tables and groups agree, where no session has
    a negative cost and no registered group a negative weight or a
    negative retained cost, the extra cost of a session is never negative:
    each of its groups counts the session itself, so the group's cost is at
    least the cost of the session. *)
Theorem extra_cost_nonneg w session :
  registry_ok w →
  (∀ s, 0 <= session_cost (heap w) s)%Q →
  (∀ name g, SessionManager.session_groups (manager w) !! name = Some g →
     (0 <= SessionGroup.weight (group_at (heap w) g))%Q
     ∧ (0 <= SessionGroup.retained_cost (group_at (heap w) g))%Q) →
  (0 <= SessionManager.extra_cost (heap w) (manager w) session)%Q.
Proof.
  intros Hok Hcost Hgroups. unfold SessionManager.extra_cost.
  destruct (SessionManager.sessions (manager w) !! session) as [groups|] eqn:Hs;
    [|apply Qle_refl].
  rewrite (fold_left_Qsum
             (λ group, (SessionGroup.cost (session_cost (heap w)) (group_at (heap w) group)
                        - session_cost (heap w) session)
                       * SessionGroup.weight (group_at (heap w) group))%Q).
  rewrite Qplus_0_l. apply Qsum_nonneg, Forall_forall.
  intros q (g & -> & Hg)%list_elem_of_fmap.
  destruct (ok_member _ Hok _ _ _ Hs Hg) as [Hin Hreg].
  destruct (Hgroups _ _ Hreg) as [Hw Hr].
  apply Qmult_le_0_compat; [|done].
  rewrite group_cost_spec. unfold spec_group_cost.
  apply (Qplus_le_r _ _ (session_cost (heap w) session)). ring_simplify.
  rewrite <- (Qplus_0_l (session_cost (heap w) session)) at 1.
  apply Qplus_le_compat; [done|].
  apply (Qsum_member (session_cost (heap w))); [done|]. by apply elem_of_elements.
Qed.

Lemma one_session_registry_ok : registry_ok one_session_registry.
Proof.
  by destruct (add_session_detail private_192_168 1 public_session empty_registry
                 empty_registry_ok eq_refl) as (H & _).
Qed.

Lemma one_session_registry_groups :
  SessionManager.session_groups (manager one_session_registry)
  = <["203.0.113" := 1%nat]> (<["t0" := 0%nat]> ∅).
Proof. by vm_compute. Qed.

Lemma extra_cost_nonneg_witness :
  (0 <= SessionManager.extra_cost (heap one_session_registry)
          (manager one_session_registry) 1)%Q.
Proof.
  apply (extra_cost_nonneg one_session_registry 1 one_session_registry_ok).
  - intros s. by vm_compute.
  - intros name g. rewrite one_session_registry_groups.
    intros [[<- <-]|[_ [[<- <-]|[_ H]]%lookup_insert_Some]]%lookup_insert_Some.
    + split; by vm_compute.
    + split; by vm_compute.
    + by rewrite lookup_empty in H.
Defined.

(** *** The refund of the retained costs *)

Lemma refund_loop refund (groups : list nat) (w : Registry) (dead : list nat) :
  NoDup groups →
  fold_left
    (λ '(w, dead_groups) group,
       let g := refund_group refund (group_at (heap w) group) in
       let w := set_heap (set_group group g (heap w)) w in
       (w, if is_dead g then (dead_groups ++ [group])%list else dead_groups))
    groups (w, dead)
  = (update_groups (refund_group refund) groups w,
     (dead ++ List.filter (λ g, is_dead (refund_group refund (group_at (heap w) g)))
                groups)%list).
Proof.
  intros Hnd. revert w dead.
  induction Hnd as [|g groups Hnotin Hnd IH]; intros w dead.
  - simpl. by rewrite app_nil_r.
  - simpl. rewrite IH. unfold update_groups. simpl. f_equal.
    assert (Hext : List.filter
              (λ g0, is_dead (refund_group refund
                 (if decide (g0 = g)
                  then refund_group refund (group_at (heap w) g)
                  else group_at (heap w) g0))) groups
            = List.filter (λ g0, is_dead (refund_group refund (group_at (heap w) g0)))
                groups).
    { apply List.filter_ext_in. intros g0 Hin%list_elem_of_In.
      destruct (decide (g0 = g)) as [->|]; [done|done]. }
    rewrite Hext.
    destruct (is_dead (refund_group refund (group_at (heap w) g))); [|done].
    by rewrite <- app_assoc.
Qed.

Lemma pop_groups_spec (dead : list nat) (w : Registry) :
  NoDup dead →
  (∀ name g, SessionManager.session_groups (manager w) !! name = Some g →
     SessionGroup.name (group_at (heap w) g) = name) →
  (∀ g, g ∈ dead →
     ∃ name, SessionManager.session_groups (manager w) !! name = Some g) →
  let r := pop_groups dead w in
  fst r = Completed
  ∧ heap (snd r) = heap w
  ∧ next_group (snd r) = next_group w
  ∧ session_event (snd r) = session_event w
  ∧ SessionManager.sessions (manager (snd r)) = SessionManager.sessions (manager w)
  ∧ ∀ name,
      SessionManager.session_groups (manager (snd r)) !! name
      = match SessionManager.session_groups (manager w) !! name with
        | Some g => if decide (g ∈ dead) then None else Some g
        | None => None
        end.
Proof.
  intros Hnd. revert w. induction Hnd as [|g dead Hnotin Hnd IH]; intros w Hnamed Hreg.
  - cbn. split_and!; try done. intros name.
    destruct (SessionManager.session_groups (manager w) !! name) as [g|]; [|done].
    destruct (decide (g ∈ [])) as [Hin|]; [inversion Hin|done].
  - cbn zeta. simpl pop_groups.
    destruct (Hreg g) as [name Hname]; [left|].
    pose proof (Hnamed _ _ Hname) as Hn. rewrite Hn, Hname.
    set (w1 := set_manager (set_session_groups
                 (delete name (SessionManager.session_groups (manager w))) (manager w)) w).
    destruct (IH w1) as (H1 & H2 & H3 & H4 & H5 & H6).
    + intros name' g'. cbn. intros [_ H]%lookup_delete_Some. by apply Hnamed.
    + intros g' Hin. destruct (Hreg g') as [name' Hname']; [by right|].
      exists name'. cbn. rewrite lookup_delete_ne; [done|].
      intros <-. assert (g = g') by congruence. by subst.
    + split_and!; try done. intros name'. rewrite H6. cbn.
      destruct (decide (name' = name)) as [->|Hne].
      * rewrite lookup_delete_eq, Hname.
        destruct (decide (g ∈ g :: dead)) as [|Hn']; [done|]. exfalso. apply Hn'. left.
      * rewrite lookup_delete_ne by done.
        destruct (SessionManager.session_groups (manager w) !! name') as [g'|] eqn:Hg';
          [|done].
        assert (g' ≠ g).
        { intros ->. apply Hne. rewrite <- (Hnamed _ _ Hg'). by apply Hnamed. }
        destruct (decide (g' ∈ dead)), (decide (g' ∈ g :: dead)) as [Hin|Hn']; try done.
        -- exfalso. apply Hn'. by right.
        -- apply elem_of_cons in Hin as [?|?]; done.
Qed.

Lemma registered_refs_NoDup w :
  registry_ok w →
  NoDup (map_to_list (SessionManager.session_groups (manager w))).*2.
Proof.
  intros Hok. apply NoDup_fmap_2_strong; [|apply NoDup_map_to_list].
  intros [n1 g1] [n2 g2] H1%elem_of_map_to_list H2%elem_of_map_to_list. cbn. intros ->.
  destruct (ok_named _ Hok _ _ H1) as [<- _]. by destruct (ok_named _ Hok _ _ H2) as [<- _].
Qed.

Lemma registered_refs_elem w g :
  g ∈ (map_to_list (SessionManager.session_groups (manager w))).*2
  ↔ ∃ name, SessionManager.session_groups (manager w) !! name = Some g.
Proof.
  rewrite list_elem_of_fmap. split.
  - intros [[name g'] [-> H%elem_of_map_to_list]]. by exists name.
  - intros [name H]. exists (name, g). split; [done|]. by apply elem_of_map_to_list.
Qed.

Lemma refund_group_retained refund g :
  (0 <= SessionGroup.retained_cost (refund_group refund g))%Q
  ∧ (SessionGroup.retained_cost g - refund <= SessionGroup.retained_cost (refund_group refund g))%Q
  ∧ (SessionGroup.retained_cost (refund_group refund g) == 0
     ∨ SessionGroup.retained_cost (refund_group refund g)
       = (SessionGroup.retained_cost g - refund))%Q.
Proof.
  unfold refund_group. cbn.
  destruct (Qlt_le_dec 0 (SessionGroup.retained_cost g - refund)) as [Hlt|Hle].
  - split_and!; [by apply Qlt_le_weak|apply Qle_refl|by right].
  - split_and!; [by vm_compute| |left; by vm_compute].
    eapply Qle_trans; [exact Hle|by vm_compute].
Qed.

(** X5.  One turn of the refund of [_recalc_concurrency], in a registry
    whose tables and groups agree, with refund 300 * hard_limit / 5000:
    no [KeyError] is raised and the tables and groups still agree; the
    session table is unchanged; every registered group keeps its name, its
    weight and its sessions, and its retained cost becomes the greater of 0
    and the old one minus the refund, so is never negative; and a
    registered group is dropped from the table exactly when it has no
    session and its retained cost has reached 0, so a group that holds a
    session stays registered.  No name is added to the table. *)
Theorem recalc_concurrency_refund hard_limit w :
  registry_ok w →
  let r := _recalc_concurrency_groups hard_limit w in
  let refund := (300 * hard_limit / 5000)%Q in
  fst r = Completed
  ∧ registry_ok (snd r)
  ∧ SessionManager.sessions (manager (snd r)) = SessionManager.sessions (manager w)
  ∧ (∀ name, SessionManager.session_groups (manager w) !! name = None →
       SessionManager.session_groups (manager (snd r)) !! name = None)
  ∧ ∀ name g, SessionManager.session_groups (manager w) !! name = Some g →
      let old := group_at (heap w) g in
      let new := group_at (heap (snd r)) g in
      SessionGroup.name new = name
      ∧ SessionGroup.weight new = SessionGroup.weight old
      ∧ SessionGroup.sessions new = SessionGroup.sessions old
      ∧ (0 <= SessionGroup.retained_cost new)%Q
      ∧ SessionGroup.retained_cost new
        = (if Qlt_le_dec 0 (SessionGroup.retained_cost old - refund)
           then SessionGroup.retained_cost old - refund else 0.0)%Q
      ∧ (SessionManager.session_groups (manager (snd r)) !! name = None
         ↔ SessionGroup.sessions old = ∅ ∧ (SessionGroup.retained_cost new == 0)%Q)
      ∧ (SessionManager.session_groups (manager (snd r)) !! name ≠ None →
         SessionManager.session_groups (manager (snd r)) !! name = Some g).
Proof.
  intros Hok r refund.
  pose proof (registered_refs_NoDup w Hok) as Hnd.
  set (vals := (map_to_list (SessionManager.session_groups (manager w))).*2) in *.
  set (w1 := update_groups (refund_group refund) vals w).
  set (dead := List.filter
                 (λ g, is_dead (refund_group refund (group_at (heap w) g))) vals).
  assert (Hr : r = pop_groups dead w1).
  { pose proof (refund_loop refund vals w [] Hnd) as Hloop.
    unfold r, _recalc_concurrency_groups. cbv zeta in *. fold vals.
    change (300 * hard_limit / 5000)%Q with refund. by rewrite Hloop. }
  destruct (update_groups_frame (refund_group refund) vals w) as (Hm1 & Hn1 & He1 & Hc1).
  fold w1 in Hm1, Hn1, He1, Hc1.
  assert (Hat : ∀ g, group_at (heap w1) g
                 = if decide (g ∈ vals) then refund_group refund (group_at (heap w) g)
                   else group_at (heap w) g).
  { intros g. by apply update_groups_at. }
  assert (Hname1 : ∀ g, SessionGroup.name (group_at (heap w1) g)
                        = SessionGroup.name (group_at (heap w) g)).
  { intros g. rewrite Hat. by destruct (decide (g ∈ vals)). }
  assert (Hsess1 : ∀ g, SessionGroup.sessions (group_at (heap w1) g)
                        = SessionGroup.sessions (group_at (heap w) g)).
  { intros g. rewrite Hat. by destruct (decide (g ∈ vals)). }
  assert (Hdead : ∀ g, g ∈ dead ↔ g ∈ vals ∧ is_dead (group_at (heap w1) g) = true).
  { intros g. unfold dead. rewrite list_elem_of_In, List.filter_In, <- list_elem_of_In.
    split; intros [Hin Hd]; (split; [done|]); rewrite Hat in *;
      by destruct (decide (g ∈ vals)). }
  destruct (pop_groups_spec dead w1) as (H1 & H2 & H3 & H4 & H5 & H6).
  { unfold dead. apply NoDup_ListNoDup, List.NoDup_filter. by apply NoDup_ListNoDup. }
  { intros name g. rewrite Hm1, Hname1. intros H. by destruct (ok_named _ Hok _ _ H). }
  { intros g [Hin _]%Hdead. rewrite Hm1. by apply registered_refs_elem. }
  rewrite <- Hr in H1, H2, H3, H4, H5, H6. rewrite Hm1 in H5, H6.
  assert (Hkept : ∀ name g, SessionManager.session_groups (manager (snd r)) !! name = Some g
                   → SessionManager.session_groups (manager w) !! name = Some g).
  { intros name g. rewrite H6.
    destruct (SessionManager.session_groups (manager w) !! name) as [g'|]; [|done].
    by destruct (decide (g' ∈ dead)). }
  assert (Hlive : ∀ name g s, SessionManager.session_groups (manager w) !! name = Some g →
                    s ∈ SessionGroup.sessions (group_at (heap w) g) →
                    SessionManager.session_groups (manager (snd r)) !! name = Some g).
  { intros name g s Hg Hs. rewrite H6, Hg.
    destruct (decide (g ∈ dead)) as [[_ Hd]%Hdead|]; [|done].
    unfold is_dead in Hd. apply andb_prop in Hd as [_ Hd%bool_decide_eq_true].
    rewrite Hsess1 in Hd. rewrite Hd in Hs. by apply not_elem_of_empty in Hs. }
  split; [done|]. split; [|split; [done|split]].
  - constructor.
    + intros name g Hg%Hkept. rewrite H2, H3, Hname1, Hn1. by apply (ok_named _ Hok).
    + intros s groups g. rewrite H5, H2, Hsess1, Hname1. intros Hs Hg.
      destruct (ok_member _ Hok _ _ _ Hs Hg) as [Hin Hreg]. split; [done|].
      by apply (Hlive _ _ s).
    + intros s groups. rewrite H5. by apply (ok_nodup _ Hok).
    + intros name g s Hg%Hkept. rewrite H2, Hsess1, H5. by apply (ok_listed _ Hok name).
  - intros name Hnone. by rewrite H6, Hnone.
  - intros name g Hg old new.
    assert (Hin : g ∈ vals) by (apply registered_refs_elem; by exists name).
    assert (Hnew : new = refund_group refund old).
    { unfold new. rewrite H2, Hat. by destruct (decide (g ∈ vals)). }
    destruct (refund_group_retained refund old) as (Hpos & _).
    rewrite Hnew. split_and!; try done.
    + cbn. by apply (ok_named _ Hok).
    + rewrite H6, Hg. destruct (decide (g ∈ dead)) as [Hd|Hd].
      * split; [intros _|done]. apply Hdead in Hd as [_ Hd]. rewrite Hat in Hd.
        destruct (decide (g ∈ vals)); [|done]. unfold is_dead in Hd.
        apply andb_prop in Hd as [Hq%Qeq_bool_iff Hs%bool_decide_eq_true]. by split.
      * split; [done|]. intros [Hs Hq]. exfalso. apply Hd, Hdead. split; [done|].
        rewrite Hat. destruct (decide (g ∈ vals)); [|done]. unfold is_dead.
        apply andb_true_intro. split; [by apply Qeq_bool_iff|by apply bool_decide_eq_true].
    + rewrite H6, Hg. by destruct (decide (g ∈ dead)).
Qed.

Lemma vacated_registry_ok : registry_ok vacated_registry.
Proof.
  by destruct (remove_session_detail 1 [0%nat; 1%nat] one_session_registry
                 one_session_registry_ok eq_refl) as (_ & H & _).
Qed.

(** With the hard limit 10000 the refund is 600: the group t0, empty and
    retaining 5.0, is dropped. *)
Lemma recalc_concurrency_refund_witness :
  fst (_recalc_concurrency_groups 10000 vacated_registry) = Completed
  ∧ SessionManager.session_groups
      (manager (snd (_recalc_concurrency_groups 10000 vacated_registry))) !! "t0" = None.
Proof.
  destruct (recalc_concurrency_refund 10000 vacated_registry vacated_registry_ok)
    as (H1 & _ & _ & _ & H5).
  split; [exact H1|].
  destruct (H5 "t0" 0%nat) as (_ & _ & _ & _ & _ & Hiff & _); [by vm_compute|].
  apply Hiff. split; by vm_compute.
Defined.

(** *** Notification of a new height *)










(** *** Subscribing to a script hash *)

Lemma scripthash_to_hashX_str lib scripthash s hashX :
  fst (ElectrumX.scripthash_to_hashX lib scripthash s) = Return hashX →
  ∃ alias, scripthash = P_str alias.
Proof.
  destruct scripthash as [alias|repr]; [by exists alias|].
  unfold ElectrumX.scripthash_to_hashX, ElectrumX.rpc_error, raise. simpl. discriminate.
Qed.

Lemma scripthash_subscribe_cases lib env scripthash aw mempool st :
  (∃ e, ElectrumX.scripthash_to_hashX lib scripthash (ElectrumX.self st)
        = (Raise e, ElectrumX.self st)
        ∧ scripthash_subscribe lib env scripthash aw mempool st = (Raise e, st))
  ∨ (∃ alias hashX,
       scripthash = P_str alias
       ∧ (∀ s, ElectrumX.scripthash_to_hashX lib scripthash s = (Return hashX, s))
       ∧ ((∃ e m',
             SessionManager.limited_history env hashX aw (ElectrumX.session_mgr st)
             = (Raise e, m')
             ∧ scripthash_subscribe lib env scripthash aw mempool st
               = (Raise e, ElectrumX.mkState (ElectrumX.self st) m'))
          ∨ (∃ history cost m',
               SessionManager.limited_history env hashX aw (ElectrumX.session_mgr st)
               = (Return (history, cost), m')
               ∧ scripthash_subscribe lib env scripthash aw mempool st
                 = (Return (status_of_text lib (ElectrumX.status_string lib history mempool)),
                    ElectrumX.mkState
                      (ElectrumX.set_hashX_subs
                         (<[hashX := alias]>
                            (ElectrumX.hashX_subs (ElectrumX.self st)))
                         (after_status lib hashX cost
                            (ElectrumX.status_string lib history mempool) mempool
                            (ElectrumX.self st)))
                      m')))).
Proof.
  destruct st as [s m].
  destruct (ElectrumX.scripthash_to_hashX lib scripthash s) as [[hashX|e] s0] eqn:Hs;
    pose proof (scripthash_to_hashX_pure _ _ _ _ _ Hs) as [-> Hpure].
  - right. destruct (scripthash_to_hashX_str lib scripthash s hashX) as [alias ->];
      [by rewrite Hs|].
    exists alias, hashX. split; [done|]. split; [done|].
    unfold scripthash_subscribe, ElectrumX.on_self, mbind, M_bind. cbn [ElectrumX.self].
    rewrite Hs. cbn [ElectrumX.session_mgr].
    destruct (limited_history_cases env hashX aw (ElectrumX.mkState s m))
      as [(history & cost & m' & Hh)|(e & m' & Hh)].
    + right. exists history, cost, m'. split; [done|].
      unfold ElectrumX.hashX_subscribe, mbind, M_bind.
      rewrite (address_status_Return _ _ _ _ _ _ _ _ _ Hh). cbn.
      by rewrite after_status_hashX_subs.
    + left. exists e, m'. split; [done|].
      unfold ElectrumX.hashX_subscribe, mbind, M_bind.
      by rewrite (address_status_Raise _ _ _ _ _ _ _ _ Hh).
  - left. exists e. split; [done|].
    unfold scripthash_subscribe, ElectrumX.on_self, mbind, M_bind. cbn [ElectrumX.self].
    by rewrite Hs.
Qed.

(** X8.  [scripthash_subscribe] stores the subscription only when the
    status could be computed: if the call raises, the session is as it was
    before, and in particular still has the same subscriptions; if it
    returns, the argument is a string that names a script hash, the hashX
    of that script hash is subscribed under the argument as alias, no
    other subscription changes, and the number of subscriptions grows by
    one if the hashX was not subscribed and stays the same otherwise. *)
Theorem scripthash_subscribe_stores lib env scripthash aw mempool st :
  let r := scripthash_subscribe lib env scripthash aw mempool st in
  (∀ e, fst r = Raise e → ElectrumX.self (snd r) = ElectrumX.self st)
  ∧ ∀ status, fst r = Return status →
      ∃ alias hashX,
        scripthash = P_str alias
        ∧ fst (ElectrumX.scripthash_to_hashX lib scripthash (ElectrumX.self st))
          = Return hashX
        ∧ ElectrumX.hashX_subs (ElectrumX.self (snd r)) !! hashX = Some alias
        ∧ (∀ k, k ≠ hashX →
             ElectrumX.hashX_subs (ElectrumX.self (snd r)) !! k
             = ElectrumX.hashX_subs (ElectrumX.self st) !! k)
        ∧ sub_count (ElectrumX.self (snd r))
          = if decide (hashX ∈ dom (ElectrumX.hashX_subs (ElectrumX.self st)))
            then sub_count (ElectrumX.self st)
            else S (sub_count (ElectrumX.self st)).
Proof.
  intros r. unfold r.
  destruct (scripthash_subscribe_cases lib env scripthash aw mempool st)
    as [(e & _ & ->)|(alias & hashX & -> & Hx & [(e & m' & _ & ->)|(h & c & m' & _ & ->)])];
    cbn [fst snd ElectrumX.self]; split; try done.
  intros status _. exists alias, hashX. rewrite Hx. split_and!; try done.
  - cbn. apply lookup_insert_eq.
  - intros k Hk. cbn. by rewrite lookup_insert_ne.
  - unfold sub_count. cbn.
    destruct (decide (hashX ∈ dom (ElectrumX.hashX_subs (ElectrumX.self st)))) as [Hin|Hnin].
    + apply elem_of_dom in Hin as [old Hold].
      rewrite <- (insert_delete_id _ _ _ Hold) at 2. rewrite <- insert_delete_eq.
      by rewrite !map_size_insert_None by apply lookup_delete_eq.
    + apply not_elem_of_dom in Hnin. by rewrite map_size_insert_None.
Qed.

Lemma scripthash_unsubscribe_eq lib scripthash hashX s :
  (∀ s, ElectrumX.scripthash_to_hashX lib scripthash s = (Return hashX, s)) →
  ElectrumX.scripthash_unsubscribe lib scripthash s
  = (Return (is_not_None (ElectrumX.hashX_subs s !! hashX)),
     ElectrumX.set_hashX_subs (delete hashX (ElectrumX.hashX_subs s))
       (ElectrumX.set_mempool_statuses (delete hashX (ElectrumX.mempool_statuses s))
          (snd (ElectrumX.bump_cost 0.1 s)))).
Proof.
  intros Hx.
  unfold ElectrumX.scripthash_unsubscribe, ElectrumX.bump_cost, modify, mbind, M_bind.
  by rewrite Hx, unsubscribe_hashX_spec.
Qed.

(** X9.  Subscribing to a script hash and unsubscribing from it.  After a
    [scripthash_subscribe] that returned, [scripthash_unsubscribe] with
    the same argument answers [True]; the session then has the
    subscriptions and the mempool statuses it had before the subscription,
    less those of the hashX; and unsubscribing once more answers
    [False]. *)
Theorem subscribe_then_unsubscribe lib env scripthash aw mempool st status :
  fst (scripthash_subscribe lib env scripthash aw mempool st) = Return status →
  let s1 := ElectrumX.self (snd (scripthash_subscribe lib env scripthash aw mempool st)) in
  let r := ElectrumX.scripthash_unsubscribe lib scripthash s1 in
  fst r = Return true
  ∧ fst (ElectrumX.scripthash_unsubscribe lib scripthash (snd r)) = Return false
  ∧ ∃ hashX,
      fst (ElectrumX.scripthash_to_hashX lib scripthash (ElectrumX.self st)) = Return hashX
      ∧ ElectrumX.hashX_subs (snd r) = delete hashX (ElectrumX.hashX_subs (ElectrumX.self st))
      ∧ ElectrumX.mempool_statuses (snd r)
        = delete hashX (ElectrumX.mempool_statuses (ElectrumX.self st)).
Proof.
  intros Hr s1 r. unfold r, s1. clear r s1. revert Hr.
  destruct (scripthash_subscribe_cases lib env scripthash aw mempool st)
    as [(e & _ & ->)|(alias & hashX & -> & Hx & [(e & m' & _ & ->)|(h & c & m' & _ & ->)])];
    cbn [fst snd ElectrumX.self]; try done.
  intros _. rewrite !(scripthash_unsubscribe_eq lib _ hashX) by done.
  cbn. rewrite lookup_insert_eq, lookup_delete_eq. split; [done|]. split; [done|].
  exists hashX. rewrite Hx. split; [done|]. rewrite delete_insert_eq.
  split; [done|]. rewrite after_status_mempool_statuses.
  destruct mempool; [apply delete_delete_eq|apply delete_insert_eq].
Qed.

Lemma subscribe_then_unsubscribe_witness :
  fst (ElectrumX.scripthash_unsubscribe model_lib scripthash_22
         (ElectrumX.self
            (snd (scripthash_subscribe model_lib default_env scripthash_22 no_history
                    [unconfirmed_tx] fresh_state))))
  = Return true.
Proof.
  refine (proj1 (subscribe_then_unsubscribe model_lib default_env scripthash_22 no_history
                   [unconfirmed_tx] fresh_state _ _)).
  vm_compute. reflexivity.
Defined.

(** A first subscription is stored under the hashX of the script hash. *)
Lemma scripthash_subscribe_stores_witness :
  ElectrumX.hashX_subs
    (ElectrumX.self
       (snd (scripthash_subscribe model_lib default_env scripthash_22 no_history
               [unconfirmed_tx] fresh_state))) !! hashX_22
  = Some "2222222222222222222222222222222222222222222222222222222222222222".
Proof.
  destruct (scripthash_subscribe_stores model_lib default_env scripthash_22 no_history
              [unconfirmed_tx] fresh_state) as [_ H].
  edestruct H as (alias & hashX & Ha & Hx & Hs & _); [vm_compute; reflexivity|].
  injection Ha as <-. vm_compute in Hx. injection Hx as <-. exact Hs.
Defined.

(** *** The transaction hashes of a block, again *)

Lemma tx_hashes_returned_are_cached height awaits m tx_hashes cost m'' :
  SessionManager.tx_hashes_at_blockheight height awaits m
  = Some (Return (tx_hashes, cost), m'') →
  pylru.assoc height (pylru.items (SessionManager._tx_hashes_cache m'')) = Some tx_hashes.
Proof.
  rewrite tx_hashes_at_blockheight_unfold.
  destruct (pylru.assoc height (pylru.items (SessionManager._tx_hashes_cache m)))
    as [[|tx_hash rest]|] eqn:Hc.
  - destruct (SessionManager.fetch_fresh awaits (after_lookup height m))
      as [[[hashes|e] m']|]; [|done|done].
    intros [= <- <- <-]. apply assoc_setitem_eq.
  - intros [= <- <- <-]. unfold after_lookup. cbn. by rewrite assoc_get.
  - destruct (SessionManager.fetch_fresh awaits (after_lookup height m))
      as [[[hashes|e] m']|]; [|done|done].
    intros [= <- <- <-]. apply assoc_setitem_eq.
Qed.

(** X10.  Once [tx_hashes_at_blockheight] has returned the hashes of a
    block, and they are not the empty list, the next call for that height
    is a cache hit: it returns the same hashes at cost 0.1 and counts a
    hit, whatever the database would answer, since it is not asked. *)
Theorem tx_hashes_second_call_hits height awaits awaits' m tx_hashes cost m'' :
  SessionManager.tx_hashes_at_blockheight height awaits m
  = Some (Return (tx_hashes, cost), m'') →
  tx_hashes ≠ [] →
  SessionManager.tx_hashes_at_blockheight height awaits' m''
  = Some (Return (tx_hashes, 0.1%Q),
          SessionManager.set_tx_hashes_hits
            (SessionManager._tx_hashes_hits m'' + 1) (after_lookup height m'')).
Proof.
  intros Hc%tx_hashes_returned_are_cached Hne.
  rewrite tx_hashes_at_blockheight_unfold, Hc. by destruct tx_hashes.
Qed.

Lemma tx_hashes_second_call_hits_witness :
  ∃ cost m'',
    SessionManager.tx_hashes_at_blockheight 100 reorg_then_quiet new_manager
    = Some (Return (fresh_hashes, cost), m'')
    ∧ fst <$> SessionManager.tx_hashes_at_blockheight 100 [] m''
      = Some (Return (fresh_hashes, 0.1%Q)).
Proof.
  eexists _, _. split; [reflexivity|].
  rewrite (tx_hashes_second_call_hits 100 reorg_then_quiet [] new_manager fresh_hashes
             _ _ eq_refl); [reflexivity|discriminate].
Defined.

Lemma fetch_fresh_failure awaits m e m' :
  SessionManager.fetch_fresh awaits m = Some (Raise e, m') →
  ∃ before aw after msg,
    awaits = (before ++ aw :: after)%list
    ∧ answer aw = inl msg
    ∧ Forall (λ aw', ∃ hashes, answer aw' = inr hashes) before
    ∧ e = Raise_RPCError (mkRPCError BAD_REQUEST ("db error: " ++ msg) 0%Q)
    ∧ m' = others aw (fold_left (λ m aw', others aw' m) before m).
Proof.
  revert m. induction awaits as [|aw awaits IH]; intros m; simpl; [done|].
  destruct (answer aw) as [msg|hashes] eqn:Ha.
  - intros [= <- <-]. exists [], aw, awaits, msg. by split_and!.
  - destruct (SessionManager._reorg_count m =? SessionManager._reorg_count (others aw m));
      [done|].
    intros (before & aw' & after & msg & -> & Ha' & Hb & -> & ->)%IH.
    exists (aw :: before), aw', after, msg. split_and!; try done.
    constructor; [by exists hashes|done].
Qed.

(** X11.  [tx_hashes_at_blockheight] fails only when the database does:
    the call was a cache miss, some fetch was answered with a [DBError]
    after the earlier answers had been discarded, the exception is the
    [RPCError] with code [BAD_REQUEST] whose message is "db error: "
    followed by the [repr] of the [DBError], and the call has written
    nothing but its lookup:
    the manager is as the other tasks left it during the fetches. *)
Theorem tx_hashes_failure height awaits m e m' :
  SessionManager.tx_hashes_at_blockheight height awaits m = Some (Raise e, m') →
  ¬ tx_hashes_hit height m
  ∧ ∃ before aw after msg,
      awaits = (before ++ aw :: after)%list
      ∧ answer aw = inl msg
      ∧ Forall (λ aw', ∃ hashes, answer aw' = inr hashes) before
      ∧ e = Raise_RPCError (mkRPCError BAD_REQUEST ("db error: " ++ msg) 0%Q)
      ∧ m' = others aw (fold_left (λ m aw', others aw' m) before (after_lookup height m)).
Proof.
  rewrite tx_hashes_at_blockheight_unfold. intros H.
  assert (Hf : SessionManager.fetch_fresh awaits (after_lookup height m) = Some (Raise e, m')
               ∧ ¬ tx_hashes_hit height m).
  { unfold tx_hashes_hit.
    destruct (pylru.assoc height (pylru.items (SessionManager._tx_hashes_cache m)))
      as [[|tx_hash rest]|]; [| done |];
      (destruct (SessionManager.fetch_fresh awaits (after_lookup height m))
         as [[[hashes|e0] m0]|]; [done| |done]);
      injection H as <- <-; (split; [done|]); by intros (? & ? & [=]). }
  destruct Hf as [Hf Hmiss]. split; [done|]. by apply fetch_fresh_failure.
Qed.

Lemma tx_hashes_failure_witness :
  ¬ tx_hashes_hit 100 new_manager
  ∧ fst <$> SessionManager.tx_hashes_at_blockheight 100 db_fails new_manager
    = Some (Raise (Raise_RPCError
                     (mkRPCError BAD_REQUEST "db error: corrupt block file" 0%Q))).
Proof.
  split; [|reflexivity].
  exact (proj1 (tx_hashes_failure 100 db_fails new_manager _ _ eq_refl)).
Defined.

(** *** Malformed keys *)





(** *** The client name *)





(** *** References to sessions and groups *)










